(** * transcribe.py: batch transcription of audio files

    A shallow embedding of [src/transcribe.py] and the properties of its
    components: the time formatter, the duration probe, the notifier, the
    progress reporter and the batch orchestrator.

    Modelling conventions.
    - Python [str] is [string] (a sequence of UTF-8 bytes); Python [int] is [Z].
    - A Python [float] is the rational [Q] it denotes.  The arithmetic of
      the progress reporter (lines 68 to 71), whose printed integers depend
      on how each operation rounds, is computed in binary64: every operation
      is followed by [round64], rounding to nearest with ties to even, and
      a quotient beyond the largest double is [inf].  The other [float]
      expressions are denoted by their exact value.
    - The file system is three flat directories, each a finite map from a
      file name to the file's contents.  A [Path] below the input directory
      is identified with its file name.
    - Code that can raise returns a [result]; the orchestrator runs in a
      state-and-exception monad [M] over the [World].
    - Everything the program obtains from outside (child processes, the
      speech engine, the clock) and the Python builtins that are not
      re-implemented here ([float()], [str.strip], [str.split]) are fields
      of an environment record [Env]; theorems quantify over it. *)

From Stdlib Require Import ZArith QArith Qround Qminmax Qabs Qpower Lqa.
From Stdlib Require Import String Ascii.
From Stdlib Require Import DecimalString DecimalZ DecimalN DecimalFacts.
From stdpp Require Import gmap strings list sorting fin_maps.

Open Scope Z_scope.

(** ** Exceptions and results *)

Inductive exn : Type :=
  | FileNotFoundError (what : string)
  | ValueError (what : string)
  | RuntimeError (what : string).

Inductive result (A : Type) : Type :=
  | Ok (a : A)
  | Raise (e : exn).
Arguments Ok {A} a.
Arguments Raise {A} e.

Definition is_ok {A} (r : result A) : bool :=
  match r with Ok _ => true | Raise _ => false end.

(** [subprocess.CompletedProcess]: what [subprocess.run] returns once the
    child has been launched and has exited, whatever its exit status. *)
Record CompletedProcess : Type := {
  returncode : Z;
  stdout : string;
  stderr : string
}.

(** ** String helpers *)

(** [str(z)] for an [int]. *)
Definition py_str (z : Z) : string := NilZero.string_of_int (Z.to_int z).

Fixpoint str_repeat_nat (s : string) (n : nat) : string :=
  match n with
  | O => ""
  | S n' => s +:+ str_repeat_nat s n'
  end.

(** [s * n]: a non-positive count gives the empty string. *)
Definition str_repeat (s : string) (n : Z) : string :=
  str_repeat_nat s (Z.to_nat n).

(** [f"{z:0Wd}"]: sign-aware zero padding to width [W]. *)
Definition fmt_0d (width : nat) (z : Z) : string :=
  let sign := if z <? 0 then "-" else "" in
  let digits := py_str (Z.abs z) in
  sign +:+
  str_repeat_nat "0" (width - String.length sign - String.length digits) +:+
  digits.

(** [f"{z:Wd}"]: right-aligned, padded with spaces to width [W]. *)
Definition fmt_d (width : nat) (z : Z) : string :=
  let s := py_str z in
  str_repeat_nat " " (width - String.length s) +:+ s.

Fixpoint group3 (rev_digits : list ascii) (k : nat) : list ascii :=
  match rev_digits with
  | [] => []
  | c :: rest =>
      if (k =? 3)%nat then ","%char :: c :: group3 rest 1
      else c :: group3 rest (S k)
  end.

(** [f"{n:,}"] for a non-negative [int]. *)
Definition fmt_comma (n : nat) : string :=
  string_of_list_ascii
    (rev (group3 (rev (list_ascii_of_string (py_str (Z.of_nat n)))) 0)).

Definition quote : string := String (ascii_of_nat 34) "".
Definition cr : string := String (ascii_of_nat 13) "".
Definition nl : string := String (ascii_of_nat 10) "".

Definition lower_ascii (c : ascii) : ascii :=
  let n := nat_of_ascii c in
  if ((65 <=? n) && (n <=? 90))%nat then ascii_of_nat (n + 32) else c.

(** [s.lower()].  Bytes outside [A-Z] are kept: the only non-ASCII
    characters whose lower case contains an ASCII letter give [k] and [i],
    and no supported extension contains either, so membership in
    [AUDIO_EXTENSIONS] is decided as in Python. *)
Fixpoint lower (s : string) : string :=
  match s with
  | "" => ""
  | String c s' => String (lower_ascii c) (lower s')
  end.

(** [s.rfind(c)], with [None] for [-1]. *)
Fixpoint rfind (c : ascii) (s : string) : option nat :=
  match s with
  | "" => None
  | String a s' =>
      match rfind c s' with
      | Some j => Some (S j)
      | None => if Ascii.eqb a c then Some 0%nat else None
      end
  end.

(** Reads a string of decimal digits (leading zeros allowed); the
    reader used to state what a formatted number denotes. *)
Definition read_digits (s : string) : option Z :=
  Z.of_uint <$> NilZero.uint_of_string s.

(** ** TimeFormatter *)

(** [format_time(seconds)], on the value of [int(seconds)]. *)
Definition format_time (seconds : Z) : string :=
  let mins := seconds / 60 in
  let secs := seconds mod 60 in
  fmt_0d 2 mins +:+ ":" +:+ fmt_0d 2 secs.

(** ** Numbers *)

(** [int(x)] for a [float]: truncation toward zero. *)
Definition py_int (x : Q) : Z := Z.quot (Qnum x) (Zpos (Qden x)).

(** [min(a, b)]: the second argument is returned only when it is
    strictly smaller. *)
Definition py_min (a b : Q) : Q := if Qlt_le_dec b a then b else a.

(** ** Binary64 arithmetic

    A finite [float] is a rational of the form [m * 2^e] with
    [|m| < 2^53] and [-1074 <= e <= 971].  An arithmetic operation on
    floats returns the float nearest to the exact result, ties going to
    the even significand. *)

Definition pow2 (e : Z) : Q := (2 ^ e)%Q.

(** The exponent [e] with [2^e <= x < 2^(e+1)], for a positive [x]. *)
Definition binade (x : Q) : Z :=
  let e := Z.log2 (Qnum x) - Z.log2 (Zpos (Qden x)) in
  if Qle_bool (pow2 e) x then e else e - 1.

(** The nearest integer, ties to even. *)
Definition round_half_even (x : Q) : Z :=
  let f := Qfloor x in
  let r := (x - inject_Z f)%Q in
  if Qlt_le_dec r (1 # 2) then f
  else if Qlt_le_dec (1 # 2) r then f + 1
  else if Z.even f then f else f + 1.

(** The exponent of the last place of the floats around [x]: 52 binary
    places below the leading bit, and never below that of the subnormal
    numbers. *)
Definition ulp_exp (x : Q) : Z := Z.max (binade (Qabs x) - 52) (-1074).

(** The nearest multiple of the unit in the last place: the float an
    operation with the exact result [x] returns, as long as it is within
    the range of the finite floats. *)
Definition round64 (x : Q) : Q :=
  if Qeq_bool x 0 then 0%Q
  else (inject_Z (round_half_even (x / pow2 (ulp_exp x))) * pow2 (ulp_exp x))%Q.

(** [sys.float_info.max]. *)
Definition DBL_MAX : Q := inject_Z (2 ^ 1024 - 2 ^ 971).

(** [float(z)], the conversion an [int] operand of a [float] operation
    undergoes.  It is exact up to [2^53] and rounds beyond; Python refuses
    to convert an [int] of [2^1024] or more, a number no count of
    one-second ticks reaches. *)
Definition float_of_int (z : Z) : Q := round64 (inject_Z z).

(** [a * b] on floats, for a product within the finite range. *)
Definition float_mul (a b : Q) : Q := round64 (a * b).

(** The literal [0.99]: the float nearest to 99/100. *)
Definition float_0_99 : Q := round64 (99 # 100).

(** ** The world and the environment *)

(** An effect on the outside world: a notification handed to a launched
    [osascript], a model load or an engine call that was made, a file
    written, a file moved, a directory handed to a launched [open]. *)
Inductive event : Type :=
  | ENotify (title message : string) (sound : bool)
  | ELoadModel (name : string)
  | ETranscribe (path language : string)
  | EWriteText (name text : string)
  | EMove (src dst : string)
  | EOpen (dir : string).

(** The three directories ([audio/], [transcriptions/], [historical/])
    and the trace of the effects the run had on the outside world. *)
Record World : Type := {
  audio : gmap string string;
  out : gmap string string;
  hist : gmap string string;
  log : list event
}.

Record Env : Type := {
  (** [subprocess.run(["osascript", "-e", script], ...)] *)
  run_osascript : string → result CompletedProcess;
  (** [subprocess.run(["ffprobe", ..., path], ...)] *)
  run_ffprobe : string → result CompletedProcess;
  (** [subprocess.run(["open", dir])] *)
  run_open : string → result CompletedProcess;
  (** [whisper.load_model(name)] *)
  whisper_load_model : string → result unit;
  (** [model.transcribe(path, language="es")["text"]], from the name and
      the contents of the file *)
  transcribe : string → string → result string;
  (** [time.strftime("%Y%m%d_%H%M%S")] while the [i]-th file is archived *)
  strftime : nat → string;
  (** [int(time.time() - start_time)] for the [i]-th file *)
  elapsed_seconds : nat → Z;
  (** [float(s)]; [None] when it raises [ValueError] *)
  py_float : string → option Q;
  (** [s.strip()] *)
  py_strip : string → string;
  (** [s.split()] *)
  py_split : string → list string
}.

(** ** The state-and-exception monad *)

Definition M (A : Type) : Type := World → World * result A.

Definition ret {A} (a : A) : M A := λ w, (w, Ok a).
Definition raise {A} (e : exn) : M A := λ w, (w, Raise e).
Definition lift {A} (r : result A) : M A := λ w, (w, r).

Definition bind {A B} (m : M A) (k : A → M B) : M B :=
  λ w, match m w with
       | (w', Ok a) => k a w'
       | (w', Raise e) => (w', Raise e)
       end.

(** [try: m  except: h] with a bare [except]. *)
Definition try_except {A} (m h : M A) : M A :=
  λ w, match m w with
       | (w', Ok a) => (w', Ok a)
       | (w', Raise _) => h w'
       end.

Notation "x ←← m ; k" := (bind m (λ x, k))
  (at level 20, m at level 100, k at level 200, only parsing, right associativity).
Notation "m ;;; k" := (bind m (λ _, k))
  (at level 100, k at level 200, only parsing, right associativity).

(** The world after one more effect. *)
Definition record (e : event) (w : World) : World :=
  {| audio := audio w; out := out w; hist := hist w; log := log w ++ [e] |}.

Definition emit (e : event) : M unit := λ w, (record e w, Ok tt).

(** ** Notifier *)

Definition notify_script (title message : string) (sound : bool) : string :=
  let sound_cmd :=
    if sound then "sound name " +:+ quote +:+ "Glass" +:+ quote else "" in
  "display notification " +:+ quote +:+ message +:+ quote +:+
  " with title " +:+ quote +:+ title +:+ quote +:+ " " +:+ sound_cmd.

(** [notify(title, message, sound)].  There is no [try] around
    [subprocess.run] and no [check=True]: a launch error propagates, an
    exit status is ignored. *)
Definition notify (E : Env) (title message : string) (sound : bool) : M unit :=
  _ ←← lift (run_osascript E (notify_script title message sound));
  emit (ENotify title message sound).

(** ** DurationProbe *)

(** [file_path.stat().st_size] *)
Definition stat_size (file_path : string) : M Z :=
  λ w, match audio w !! file_path with
       | Some c => (w, Ok (Z.of_nat (String.length c)))
       | None => (w, Raise (FileNotFoundError file_path))
       end.

Definition parse_duration (E : Env) (p : CompletedProcess) : M Q :=
  match py_float E (py_strip E (stdout p)) with
  | Some d => ret d
  | None => raise (ValueError (stdout p))
  end.

Definition fallback_duration (st_size : Z) : Q :=
  let size_mb := (inject_Z st_size / inject_Z (1024 * 1024))%Q in
  (size_mb * 6)%Q.

Definition get_audio_duration (E : Env) (file_path : string) : M Q :=
  try_except
    (p ←← lift (run_ffprobe E file_path);
     parse_duration E p)
    (st_size ←← stat_size file_path;
     ret (fallback_duration st_size)).

(** ** ProgressReporter *)

Definition bar_width : Z := 30.

Definition block : string := "█".
Definition shade : string := "░".

Definition spinner : list string :=
  ["⠋"; "⠙"; "⠹"; "⠸"; "⠼"; "⠴"; "⠦"; "⠧"; "⠇"; "⠏"].

(** What one [sys.stdout.write] of the reporter prints: the bar of line
    74, the spinner of line 78, the completion line of line 86. *)
Inductive line : Type :=
  | BarLine (bar : string) (percent : Z) (elapsed estimated : string)
  | SpinLine (glyph : string) (elapsed : string)
  | DoneLine (bar : string) (elapsed : string).

Definition render (l : line) : string :=
  match l with
  | BarLine bar percent elapsed estimated =>
      cr +:+ "   [" +:+ bar +:+ "] " +:+ fmt_d 2 percent +:+ "% • " +:+
      elapsed +:+ " / ~" +:+ estimated
  | SpinLine glyph elapsed =>
      cr +:+ "   " +:+ glyph +:+ " Transcribiendo... " +:+ elapsed
  | DoneLine bar elapsed =>
      cr +:+ "   [" +:+ bar +:+ "] ✅ Completado en " +:+ elapsed +:+
      "      " +:+ nl
  end.

(** Line 68, [min(elapsed / estimated_seconds, 0.99)], below the test
    of line 67 and for the tick counts the loop passes: [float(elapsed)]
    is divided by the positive estimate and the quotient rounded.  A
    quotient beyond the largest float is [inf], and [min(inf, 0.99)] is
    [0.99]. *)
Definition progress_of (estimated_seconds : Q) (elapsed : Z) : Q :=
  let quotient := round64 (float_of_int elapsed / estimated_seconds) in
  if Qle_bool quotient DBL_MAX then py_min quotient float_0_99
  else float_0_99.

(** Line 69, [int(bar_width * progress)]. *)
Definition filled_of (progress : Q) : Z :=
  py_int (float_mul (float_of_int bar_width) progress).

(** Line 71, [int(progress * 100)]. *)
Definition percent_of (progress : Q) : Z :=
  py_int (float_mul progress (float_of_int 100)).

(** The body of the [while] loop for the tick [idx].  The [eta] of line
    72 is computed there and never used. *)
Definition tick (estimated_seconds : Q) (idx : nat) : line :=
  let elapsed := Z.of_nat idx in
  if Qlt_le_dec 0%Q estimated_seconds then
    let progress := progress_of estimated_seconds elapsed in
    let filled := filled_of progress in
    let bar := str_repeat block filled +:+ str_repeat shade (bar_width - filled) in
    let percent := percent_of progress in
    BarLine bar percent (format_time elapsed)
            (format_time (py_int estimated_seconds))
  else
    SpinLine (default "" (spinner !! (idx mod length spinner)%nat))
             (format_time elapsed).

(** The [while not stop_event.is_set()] loop.  [is_set idx] is what the
    reporter reads from the stop flag at the start of iteration [idx];
    [fuel] bounds the number of iterations. *)
Fixpoint progress_loop (fuel : nat) (is_set : nat → bool)
    (estimated_seconds : Q) (idx : nat) : option (list line * nat) :=
  match fuel with
  | O => None
  | S fuel' =>
      if is_set idx then Some ([], idx)
      else
        match progress_loop fuel' is_set estimated_seconds (S idx) with
        | Some (ls, n) => Some (tick estimated_seconds idx :: ls, n)
        | None => None
        end
  end.

(** [show_progress_bar(stop_event, file_name, estimated_seconds)]: the
    lines written and the value returned. *)
Definition show_progress_bar (fuel : nat) (is_set : nat → bool)
    (file_name : string) (estimated_seconds : Q) : option (list line * nat) :=
  match progress_loop fuel is_set estimated_seconds 0 with
  | Some (ls, idx) =>
      let bar := str_repeat block bar_width in
      Some (ls ++ [DoneLine bar (format_time (Z.of_nat idx))], idx)
  | None => None
  end.

(** ** Paths *)

Module Path.

(** [Path(name).suffix]: from the last dot on, unless that dot is the
    first or the last character of the name. *)
Definition suffix (name : string) : string :=
  match rfind "." name with
  | Some i =>
      if ((0 <? i) && (i <? String.length name - 1))%nat
      then substring i (String.length name - i) name
      else ""
  | None => ""
  end.

(** [Path(name).stem]: the name without its suffix. *)
Definition stem (name : string) : string :=
  match rfind "." name with
  | Some i =>
      if ((0 <? i) && (i <? String.length name - 1))%nat
      then substring 0 i name
      else name
  | None => name
  end.

End Path.

(** ** BatchOrchestrator *)

Definition AUDIO_EXTENSIONS : list string :=
  [".wav"; ".mp3"; ".m4a"; ".flac"; ".ogg"; ".webm"; ".opus"].

Definition PROCESS_RATIO : Q := (4 # 10)%Q.

Definition supported (f : string) : Prop := lower (Path.suffix f) ∈ AUDIO_EXTENSIONS.

Global Instance supported_dec f : Decision (supported f).
Proof. unfold supported. apply _. Defined.

(** [AUDIO_DIR.iterdir()] *)
Definition iterdir (w : World) : list string := (map_to_list (audio w)).*1.

(** [sorted([f for f in AUDIO_DIR.iterdir() if f.suffix.lower() in AUDIO_EXTENSIONS])].
    Paths of one directory compare as their names do. *)
Definition discover (w : World) : list string :=
  merge_sort String.le (filter supported (iterdir w)).

(** One entry of [results]. *)
Record file_result : Type := {
  res_name : string;
  res_words : nat;
  res_time : Z
}.

(** [model.transcribe(str(audio_file), language="es")]: the engine reads
    the file; whatever it raises propagates. *)
Definition model_transcribe (E : Env) (audio_file : string) : M string :=
  _ ←← emit (ETranscribe audio_file "es");
  λ w, match audio w !! audio_file with
       | Some c => (w, transcribe E audio_file c)
       | None => (w, Raise (FileNotFoundError audio_file))
       end.

(** [output_file.write_text(text)]: creates the file or replaces its
    contents. *)
Definition write_text (output_file text : string) : M unit :=
  λ w, ({| audio := audio w; out := <[output_file := text]> (out w);
           hist := hist w;
           log := log w ++ [EWriteText output_file text] |}, Ok tt).

(** [historical_file.exists()] *)
Definition historical_exists (historical_file : string) : M bool :=
  λ w, (w, Ok (bool_decide (is_Some (hist w !! historical_file)))).

(** [shutil.move(str(audio_file), str(historical_file))]: a rename, which
    replaces a file already at the destination. *)
Definition shutil_move (audio_file historical_file : string) : M unit :=
  λ w, match audio w !! audio_file with
       | Some c =>
           ({| audio := delete audio_file (audio w); out := out w;
               hist := <[historical_file := c]> (hist w);
               log := log w ++ [EMove audio_file historical_file] |}, Ok tt)
       | None => (w, Raise (FileNotFoundError audio_file))
       end.

(** Lines 171-177: move the original to [historical/]. *)
Definition archive (E : Env) (i : nat) (audio_file : string) : M string :=
  let historical_file := audio_file in
  clash ←← historical_exists historical_file;
  let historical_file :=
    if (clash : bool) then
      let timestamp := strftime E i in
      Path.stem audio_file +:+ "_" +:+ timestamp +:+ Path.suffix audio_file
    else historical_file in
  _ ←← shutil_move audio_file historical_file;
  ret historical_file.

(** The body of the [for i, audio_file in enumerate(audio_files, 1)] loop.
    The progress thread only writes to the console; it is started before
    the engine call and joined after it. *)
Definition process_file (E : Env) (i : nat) (audio_file : string) : M file_result :=
  audio_duration ←← get_audio_duration E audio_file;
  let estimated_process_time := (audio_duration * PROCESS_RATIO)%Q in
  result ←← model_transcribe E audio_file;
  let duration := elapsed_seconds E i in
  let output_file := Path.stem audio_file +:+ ".txt" in
  let text := py_strip E result in
  _ ←← write_text output_file text;
  let word_count := length (py_split E text) in
  _ ←← archive E i audio_file;
  ret {| res_name := Path.stem audio_file; res_words := word_count;
         res_time := duration |}.

Fixpoint process_all (E : Env) (audio_files : list string) (i : nat)
    (total_time : Z) (results : list file_result) : M (Z * list file_result) :=
  match audio_files with
  | [] => ret (total_time, results)
  | audio_file :: rest =>
      r ←← process_file E i audio_file;
      process_all E rest (S i) (total_time + res_time r) (results ++ [r])
  end.

(** Lines 119-122: the listing of the discovered files. *)
Fixpoint list_files (E : Env) (audio_files : list string) : M unit :=
  match audio_files with
  | [] => ret tt
  | f :: rest =>
      _ ←← stat_size f;
      _ ←← get_audio_duration E f;
      list_files E rest
  end.

Definition no_files_message : string := "No hay archivos de audio para procesar".

Definition start_message (n : nat) : string :=
  "Iniciando transcripción de " +:+ py_str (Z.of_nat n) +:+ " archivo(s)".

Definition summary_message (results : list file_result) (total_time : Z) : string :=
  let total_words := sum_list (res_words <$> results) in
  py_str (Z.of_nat (length results)) +:+ " archivo(s) • " +:+
  fmt_comma total_words +:+ " palabras • " +:+ format_time total_time.

Definition OUTPUT_DIR : string := "transcriptions".

(** Lines 186-206: the summary notification and the file browser. *)
Definition summarize (E : Env) (total_time : Z) (results : list file_result)
    : M unit :=
  _ ←← notify E "✅ Transcripción Completa"
         (summary_message results total_time) true;
  _ ←← lift (run_open E OUTPUT_DIR);
  emit (EOpen OUTPUT_DIR).

(** Lines 124-129: the model is loaded and the start is announced. *)
Definition prepare (E : Env) (audio_files : list string) : M unit :=
  _ ←← emit (ELoadModel "medium");
  _ ←← lift (whisper_load_model E "medium");
  notify E "Transcriptor" (start_message (length audio_files)) true.

(** [main()].  The three directories exist in every [World], which is
    what the [mkdir(exist_ok=True)] calls establish; the [print] calls
    write to the console only and are left out. *)
Definition main (E : Env) : M unit :=
  audio_files ←← (λ w, (w, Ok (discover w)));
  match audio_files with
  | [] => notify E "Transcriptor" no_files_message true
  | _ =>
      _ ←← list_files E audio_files;
      _ ←← prepare E audio_files;
      tr ←← process_all E audio_files 1 0 [];
      summarize E tr.1 tr.2
  end.

(** ** A concrete environment

    Used to run the definitions on examples.  [float_of_decimal],
    [strip_ascii] and [String.words] agree with [float()], [str.strip] and
    [str.split] on the ASCII strings of the examples. *)

Module Demo.

Definition completed (code : Z) (text : string) : result CompletedProcess :=
  Ok {| returncode := code; stdout := text; stderr := "" |}.

Fixpoint split_dot (s : string) : string * option string :=
  match s with
  | "" => ("", None)
  | String c s' =>
      if Ascii.eqb c "." then ("", Some s')
      else let '(a, b) := split_dot s' in (String c a, b)
  end.

Definition float_of_decimal (s : string) : option Q :=
  match split_dot s with
  | (a, None) => inject_Z <$> read_digits a
  | (a, Some b) =>
      match read_digits a, read_digits b with
      | Some x, Some y =>
          Some (inject_Z x + inject_Z y / inject_Z (10 ^ Z.of_nat (String.length b)))%Q
      | _, _ => None
      end
  end.

Fixpoint lstrip (s : string) : string :=
  match s with
  | "" => ""
  | String c s' => if Ascii.is_space c then lstrip s' else s
  end.

Definition strip_ascii (s : string) : string :=
  String.rev (lstrip (String.rev (lstrip s))).

(** A machine on which every tool is installed: the probe reports ten
    seconds and the engine recognises [hola mundo] in every file. *)
Definition env : Env := {|
  run_osascript := λ _, completed 0 "";
  run_ffprobe := λ _, completed 0 ("10.0" +:+ nl);
  run_open := λ _, completed 0 "";
  whisper_load_model := λ _, Ok tt;
  transcribe := λ _ _, Ok " hola mundo ";
  strftime := λ _, "20240101_120000";
  elapsed_seconds := λ _, 4;
  py_float := float_of_decimal;
  py_strip := strip_ascii;
  py_split := String.words
|}.

(** The same machine without [osascript] on the search path. *)
Definition env_no_osascript : Env := {|
  run_osascript := λ _, Raise (FileNotFoundError "osascript");
  run_ffprobe := run_ffprobe env;
  run_open := run_open env;
  whisper_load_model := whisper_load_model env;
  transcribe := transcribe env;
  strftime := strftime env;
  elapsed_seconds := elapsed_seconds env;
  py_float := py_float env;
  py_strip := py_strip env;
  py_split := py_split env
|}.

(** The same machine without [open] on the search path. *)
Definition env_no_open : Env := {|
  run_osascript := run_osascript env;
  run_ffprobe := run_ffprobe env;
  run_open := λ _, Raise (FileNotFoundError "open");
  whisper_load_model := whisper_load_model env;
  transcribe := transcribe env;
  strftime := strftime env;
  elapsed_seconds := elapsed_seconds env;
  py_float := py_float env;
  py_strip := py_strip env;
  py_split := py_split env
|}.

(** A probe that prints nothing and exits with status 1. *)
Definition env_probe_fails : Env := {|
  run_osascript := run_osascript env;
  run_ffprobe := λ _, completed 1 "";
  run_open := run_open env;
  whisper_load_model := whisper_load_model env;
  transcribe := transcribe env;
  strftime := strftime env;
  elapsed_seconds := elapsed_seconds env;
  py_float := py_float env;
  py_strip := py_strip env;
  py_split := py_split env
|}.

(** A probe that prints a duration and still exits with status 1. *)
Definition env_probe_status1 : Env := {|
  run_osascript := run_osascript env;
  run_ffprobe := λ _, completed 1 ("12.5" +:+ nl);
  run_open := run_open env;
  whisper_load_model := whisper_load_model env;
  transcribe := transcribe env;
  strftime := strftime env;
  elapsed_seconds := elapsed_seconds env;
  py_float := py_float env;
  py_strip := py_strip env;
  py_split := py_split env
|}.

(** An engine that fails on [b.mp3] and on nothing else. *)
Definition env_engine_fails : Env := {|
  run_osascript := run_osascript env;
  run_ffprobe := run_ffprobe env;
  run_open := run_open env;
  whisper_load_model := whisper_load_model env;
  transcribe := λ f _,
    if String.eqb f "b.mp3" then Raise (RuntimeError "corrupt audio")
    else Ok (" texto de " +:+ f);
  strftime := strftime env;
  elapsed_seconds := elapsed_seconds env;
  py_float := py_float env;
  py_strip := py_strip env;
  py_split := py_split env
|}.

Definition world (a o h : list (string * string)) : World :=
  {| audio := list_to_map a; out := list_to_map o; hist := list_to_map h;
     log := [] |}.

Definition empty_world : World := world [] [] [].

Definition one_file : World := world [("a.wav", "AA")] [] [].

(** [a.wav] was archived by an earlier run and is dropped in again. *)
Definition archived_once : World :=
  world [("a.wav", "AA")] [("a.txt", "viejo")] [("a.wav", "old")].

(** The archive already holds [a.wav] and a file with the name that a
    clash at 2024-01-01 12:00:00 produces. *)
Definition crowded_archive : World :=
  world [("a.wav", "third")] []
        [("a.wav", "first"); ("a_20240101_120000.wav", "second")].

(** An input directory without any audio file. *)
Definition only_notes : World := world [("notes.txt", "x")] [] [].

(** An engine whose text names the file it was given. *)
Definition env_echo : Env := {|
  run_osascript := run_osascript env;
  run_ffprobe := run_ffprobe env;
  run_open := run_open env;
  whisper_load_model := whisper_load_model env;
  transcribe := λ f _, Ok (" texto de " +:+ f);
  strftime := strftime env;
  elapsed_seconds := elapsed_seconds env;
  py_float := py_float env;
  py_strip := py_strip env;
  py_split := py_split env
|}.

(** Three audio files, two of them with the stem [a], and a text file. *)
Definition batch : World :=
  world [("b.mp3", "BBBB"); ("a.wav", "AA"); ("notes.txt", "x");
         ("a.MP3", "CCC")] [] [].

(** What is left of a world when the trace is put aside. *)
Definition dirs (w : World) :=
  (map_to_list (audio w), map_to_list (out w), map_to_list (hist w)).

End Demo.

(** ** Vocabulary of the statements *)

(** The check behind the table of the sixty seconds fields. *)
Definition below_sixty_ok (n : nat) : bool :=
  let s := fmt_0d 2 (Z.of_nat n) in
  bool_decide (String.length s = 2%nat ∧ read_digits s = Some (Z.of_nat n)).

(** The completion lines among the lines of the reporter. *)
Definition is_done (l : line) : bool :=
  match l with DoneLine _ _ => true | _ => false end.

(** The name of the output file of an input file (line 163). *)
Definition output_name (audio_file : string) : string :=
  Path.stem audio_file +:+ ".txt".

(** The name used on a clash in the archive (line 175). *)
Definition timestamped (E : Env) (i : nat) (audio_file : string) : string :=
  Path.stem audio_file +:+ "_" +:+ strftime E i +:+ Path.suffix audio_file.

(** The name under which [archive] stores a file. *)
Definition archive_name (E : Env) (i : nat) (audio_file : string) (w : World)
    : string :=
  if bool_decide (is_Some (hist w !! audio_file))
  then timestamped E i audio_file else audio_file.

(** The engine returns a text for the file [f] of the input directory. *)
Definition engine_ok (E : Env) (w : World) (f : string) : Prop :=
  ∃ c t, audio w !! f = Some c ∧ transcribe E f c = Ok t.

Definition content_of (w : World) (f : string) : string :=
  default "" (audio w !! f).

(** The text written for [f]: what the engine recognises in it, stripped. *)
Definition text_of (E : Env) (w : World) (f : string) : string :=
  match transcribe E f (content_of w f) with
  | Ok t => py_strip E t
  | Raise _ => ""
  end.

(** The entry of [results] for the [i]-th file. *)
Definition result_of (E : Env) (w : World) (i : nat) (f : string) : file_result :=
  {| res_name := Path.stem f;
     res_words := length (py_split E (text_of E w f));
     res_time := elapsed_seconds E i |}.

(** The world once [f] has been transcribed, written and archived. *)
Definition after_file (E : Env) (i : nat) (f : string) (w : World) : World :=
  {| audio := delete f (audio w);
     out := <[output_name f := text_of E w f]> (out w);
     hist := <[archive_name E i f w := content_of w f]> (hist w);
     log := log w ++ [ETranscribe f "es";
                      EWriteText (output_name f) (text_of E w f);
                      EMove f (archive_name E i f w)] |}.

Fixpoint after_files (E : Env) (i : nat) (fs : list string) (w : World) : World :=
  match fs with
  | [] => w
  | f :: rest => after_files E (S i) rest (after_file E i f w)
  end.

(** Projections of a trace. *)
Definition transcribed (evs : list event) : list string :=
  omap (λ e, match e with ETranscribe f _ => Some f | _ => None end) evs.

Definition written (evs : list event) : list (string * string) :=
  omap (λ e, match e with EWriteText n t => Some (n, t) | _ => None end) evs.

Definition moved (evs : list event) : list (string * string) :=
  omap (λ e, match e with EMove s d => Some (s, d) | _ => None end) evs.

Definition loaded (evs : list event) : list string :=
  omap (λ e, match e with ELoadModel m => Some m | _ => None end) evs.

Definition notified (evs : list event) : list string :=
  omap (λ e, match e with ENotify _ m _ => Some m | _ => None end) evs.

(** Reading a formatted time back: the text before the first colon is
    the minutes, the text after it the seconds. *)
Fixpoint split_colon (s : string) : option (string * string) :=
  match s with
  | "" => None
  | String c s' =>
      if Ascii.eqb c ":" then Some ("", s')
      else match split_colon s' with
           | Some (a, b) => Some (String c a, b)
           | None => None
           end
  end.

Definition parse_time (s : string) : option Z :=
  match split_colon s with
  | Some (mm, ss) =>
      match read_digits mm, read_digits ss with
      | Some m, Some r => Some (60 * m + r)
      | _, _ => None
      end
  | None => None
  end.

(** The number the probe reports, when it is launched and prints one. *)
Definition probe_value (E : Env) (file_path : string) : option Q :=
  match run_ffprobe E file_path with
  | Ok p => py_float E (py_strip E (stdout p))
  | Raise _ => None
  end.

(** The entries of [results] for files processed from position [i] on. *)
Fixpoint results_of (E : Env) (w : World) (i : nat) (fs : list string)
    : list file_result :=
  match fs with
  | [] => []
  | f :: rest => result_of E w i f :: results_of E w (S i) rest
  end.

(** The effects of processing one file that ends up at [dst]. *)
Definition file_events (E : Env) (w : World) (f dst : string) : list event :=
  [ETranscribe f "es"; EWriteText (output_name f) (text_of E w f); EMove f dst].

(** The bar of a bar line, the empty string for the other lines. *)
Definition bar_of (l : line) : string :=
  match l with
  | BarLine bar _ _ _ => bar
  | SpinLine _ _ => ""
  | DoneLine bar _ => bar
  end.

(** The sum of the [time] entries of [results]. *)
Definition sum_time (rs : list file_result) : Z :=
  foldr (λ r acc, res_time r + acc) 0 rs.

(** The world when the loop starts: the model is loaded and the start
    has been announced. *)
Definition started (w : World) : World :=
  record (ENotify "Transcriptor" (start_message (length (discover w))) true)
    (record (ELoadModel "medium") w).

(** [w'] differs from [w] at most by what processing the files [fs] may
    do: input files other than [fs] are as they were and no input file
    is created or changed, output files other than those of [fs] are as
    they were, and no name disappears from the archive. *)
Definition touched_only (fs : list string) (w w' : World) : Prop :=
  (∀ g, g ∉ fs → audio w' !! g = audio w !! g) ∧
  (∀ g c, audio w' !! g = Some c → audio w !! g = Some c) ∧
  (∀ k, k ∉ output_name <$> fs → out w' !! k = out w !! k) ∧
  (∀ d, is_Some (hist w !! d) → is_Some (hist w' !! d)).

(** * Properties *)

(** ** Decimal rendering *)

Lemma string_of_uint_length (d : Decimal.uint) :
  String.length (NilEmpty.string_of_uint d) = Decimal.nb_digits d.
Proof. induction d; simpl; congruence. Qed.

Lemma py_str_pos (p : positive) :
  py_str (Z.pos p) = NilEmpty.string_of_uint (Pos.to_uint p).
Proof.
  unfold py_str. simpl.
  pose proof (DecimalPos.Unsigned.to_uint_nonnil p) as Hn.
  destruct (Pos.to_uint p); [done | reflexivity ..].
Qed.

Lemma read_digits_py_str (n : Z) : 0 ≤ n → read_digits (py_str n) = Some n.
Proof.
  intros Hn. destruct n as [| p | p]; [reflexivity | | lia].
  unfold read_digits, py_str. simpl.
  rewrite NilZero.usu by apply DecimalPos.Unsigned.to_uint_nonnil.
  simpl. unfold Z.of_uint. by rewrite DecimalPos.Unsigned.of_to.
Qed.

Lemma read_digits_zero_prefix (s : string) :
  s ≠ "" → read_digits (String "0" s) = read_digits s.
Proof.
  intros Hs. unfold read_digits, NilZero.uint_of_string.
  destruct s as [| c s]; [done |].
  change (NilEmpty.uint_of_string (String "0" (String c s)))
    with (Decimal.D0 <$> NilEmpty.uint_of_string (String c s)).
  by destruct (NilEmpty.uint_of_string (String c s)).
Qed.

Lemma py_str_nonempty (n : Z) : 0 ≤ n → (1 ≤ String.length (py_str n))%nat.
Proof.
  intros Hn. destruct n as [| p | p]; [simpl; lia | | lia].
  rewrite py_str_pos, string_of_uint_length.
  pose proof (DecimalPos.Unsigned.to_uint_nonnil p).
  destruct (Pos.to_uint p); simpl; [done | lia ..].
Qed.

(** A number printed with a single digit is below ten. *)
Lemma py_str_one_digit (n : Z) :
  0 ≤ n → String.length (py_str n) = 1%nat → n < 10.
Proof.
  intros Hn Hl. destruct n as [| p | p]; [lia | | lia].
  rewrite py_str_pos, string_of_uint_length in Hl.
  pose proof (DecimalPos.Unsigned.of_to p) as Hp.
  destruct (Pos.to_uint p) as [| d | d | d | d | d | d | d | d | d | d];
    simpl in Hl; try discriminate;
    (destruct d; simpl in Hl; [| discriminate ..]);
    simpl in Hp; first [discriminate | injection Hp as <-; lia].
Qed.

Lemma below_sixty_table : forallb below_sixty_ok (seq 0 60) = true.
Proof. vm_compute. reflexivity. Qed.

Lemma fmt_0d_below_sixty (n : Z) :
  0 ≤ n < 60 →
  String.length (fmt_0d 2 n) = 2%nat ∧ read_digits (fmt_0d 2 n) = Some n.
Proof.
  intros Hn.
  pose proof below_sixty_table as Ht.
  rewrite forallb_forall in Ht.
  assert (In (Z.to_nat n) (seq 0 60)) as Hin by (apply in_seq; lia).
  apply Ht in Hin. unfold below_sixty_ok in Hin.
  rewrite Z2Nat.id in Hin by lia. by apply bool_decide_eq_true in Hin.
Qed.

Lemma fmt_0d_nonneg (n : Z) :
  0 ≤ n →
  fmt_0d 2 n =
    str_repeat_nat "0" (2 - String.length (py_str n)) +:+ py_str n.
Proof.
  intros Hn. unfold fmt_0d.
  destruct (Z.ltb_spec n 0); [lia |].
  rewrite Z.abs_eq by done. reflexivity.
Qed.

Lemma fmt_0d_wide (n : Z) : 10 ≤ n → fmt_0d 2 n = py_str n.
Proof.
  intros Hn. rewrite fmt_0d_nonneg by lia.
  pose proof (py_str_nonempty n ltac:(lia)).
  pose proof (py_str_one_digit n ltac:(lia)).
  destruct (String.length (py_str n)) as [| [| k]] eqn:Hl; [lia | lia |].
  reflexivity.
Qed.

Lemma fmt_0d_read (n : Z) :
  0 ≤ n →
  (2 ≤ String.length (fmt_0d 2 n))%nat ∧ read_digits (fmt_0d 2 n) = Some n.
Proof.
  intros Hn. destruct (Z.lt_ge_cases n 60) as [Hlt | Hge].
  - destruct (fmt_0d_below_sixty n) as [-> ?]; [lia | done].
  - rewrite fmt_0d_wide by lia.
    split; [| by apply read_digits_py_str].
    pose proof (py_str_nonempty n ltac:(lia)).
    pose proof (py_str_one_digit n ltac:(lia)).
    destruct (String.length (py_str n)) as [| [| k]]; lia.
Qed.

(** ** TimeFormatter *)

Example format_time_examples :
  format_time 125 = "02:05" ∧ format_time 0 = "00:00" ∧
  format_time 59 = "00:59" ∧ format_time 3600 = "60:00" ∧
  format_time 6000 = "100:00".
Proof. repeat split; reflexivity. Qed.

(** C6.  For a non-negative number of seconds [s], [format_time s] is a
    minutes field, a colon and a seconds field; the minutes field reads
    as [s // 60] and the seconds field as [s % 60]; the seconds field has
    exactly two characters and the minutes field at least two, being the
    plain decimal rendering once the minutes reach ten (so minutes are
    not capped at 59).  In particular [format_time 125] is [02:05] and
    [format_time 0] is [00:00]. *)
Theorem format_time_spec (s : Z) :
  0 ≤ s →
  (∃ mm ss : string,
      format_time s = mm +:+ ":" +:+ ss ∧
      read_digits mm = Some (s `div` 60) ∧
      read_digits ss = Some (s `mod` 60) ∧
      String.length ss = 2%nat ∧
      (2 ≤ String.length mm)%nat ∧
      (s `div` 60 < 10 → String.length mm = 2%nat) ∧
      (10 ≤ s `div` 60 → mm = py_str (s `div` 60))) ∧
  format_time 125 = "02:05" ∧
  format_time 0 = "00:00".
Proof.
  intros Hs. split; [| split; reflexivity].
  exists (fmt_0d 2 (s `div` 60)), (fmt_0d 2 (s `mod` 60)).
  assert (0 ≤ s `div` 60) as Hm by (apply Z.div_pos; lia).
  assert (0 ≤ s `mod` 60 < 60) as Hr by (apply Z.mod_pos_bound; lia).
  destruct (fmt_0d_read _ Hm) as [Hlm Hrm].
  destruct (fmt_0d_below_sixty _ Hr) as [Hls Hrs].
  repeat split; try done.
  - intros Hlt. by destruct (fmt_0d_below_sixty (s `div` 60)); [lia |].
  - apply fmt_0d_wide.
Qed.

Lemma format_time_spec_witness :
  0 ≤ 125 ∧
  ((∃ mm ss : string,
      format_time 125 = mm +:+ ":" +:+ ss ∧
      read_digits mm = Some (125 `div` 60) ∧
      read_digits ss = Some (125 `mod` 60) ∧
      String.length ss = 2%nat ∧
      (2 ≤ String.length mm)%nat ∧
      (125 `div` 60 < 10 → String.length mm = 2%nat) ∧
      (10 ≤ 125 `div` 60 → mm = py_str (125 `div` 60))) ∧
   format_time 125 = "02:05" ∧
   format_time 0 = "00:00").
Proof. split; [lia | apply (format_time_spec 125); lia]. Defined.

(** ** Notifier *)

(** C3, as stated, fails: without [osascript] on the search path
    [subprocess.run] raises [FileNotFoundError], and [notify] has no
    handler for it. *)
Lemma notify_missing_binary_raises :
  notify Demo.env_no_osascript "Transcriptor" "hola" true Demo.empty_world =
    (Demo.empty_world, Raise (FileNotFoundError "osascript")).
Proof. reflexivity. Qed.

(** C3, amended.  For every title, message and sound flag: once
    [osascript] has been launched, whatever it reports (any exit status,
    any output) is ignored and [notify] returns normally, the
    notification being its only effect; an error raised while launching
    it is not caught and leaves [notify] as it was raised. *)
Theorem notify_swallows_exit_status (E : Env) (title message : string)
    (sound : bool) (w : World) :
  (∀ p, run_osascript E (notify_script title message sound) = Ok p →
        notify E title message sound w =
          (record (ENotify title message sound) w, Ok tt)) ∧
  (∀ e, run_osascript E (notify_script title message sound) = Raise e →
        notify E title message sound w = (w, Raise e)).
Proof.
  split; intros x Hrun; unfold notify, bind, lift, emit; by rewrite Hrun.
Qed.

Lemma notify_swallows_exit_status_witness :
  notify Demo.env "Transcriptor" "hola" true Demo.empty_world =
    (record (ENotify "Transcriptor" "hola" true) Demo.empty_world, Ok tt).
Proof.
  apply (proj1 (notify_swallows_exit_status Demo.env "Transcriptor" "hola"
                  true Demo.empty_world)
           {| returncode := 0; stdout := ""; stderr := "" |}).
  reflexivity.
Defined.

(** ** DurationProbe *)

Lemma get_audio_duration_cases (E : Env) (file_path : string) (w : World) :
  get_audio_duration E file_path w =
    match run_ffprobe E file_path with
    | Ok p =>
        match py_float E (py_strip E (stdout p)) with
        | Some d => (w, Ok d)
        | None => (st_size ←← stat_size file_path;
                   ret (fallback_duration st_size)) w
        end
    | Raise _ => (st_size ←← stat_size file_path;
                  ret (fallback_duration st_size)) w
    end.
Proof.
  unfold get_audio_duration, try_except, bind, lift, parse_duration.
  destruct (run_ffprobe E file_path) as [p | e]; [| done].
  by destruct (py_float E (py_strip E (stdout p))).
Qed.

(** The probe leaves the world as it found it. *)
Lemma get_audio_duration_world (E : Env) (file_path : string) (w : World) :
  (get_audio_duration E file_path w).1 = w.
Proof.
  rewrite get_audio_duration_cases. unfold bind, stat_size, ret.
  destruct (run_ffprobe E file_path) as [p | e];
    [destruct (py_float E (py_strip E (stdout p))) |];
    by destruct (audio w !! file_path).
Qed.

(** C2, as stated, fails twice.  For the path of a file that does not
    exist the fallback itself raises, from [stat]; and a probe that exits
    with a non-zero status after printing a number is believed, the exit
    status never being looked at. *)
Lemma get_audio_duration_counterexample :
  get_audio_duration Demo.env_probe_fails "zz.wav" Demo.empty_world =
    (Demo.empty_world, Raise (FileNotFoundError "zz.wav")) ∧
  (∃ p, run_ffprobe Demo.env_probe_status1 "a.wav" = Ok p ∧ returncode p = 1) ∧
  (get_audio_duration Demo.env_probe_status1 "a.wav" Demo.one_file).2 =
    Ok (125 # 10)%Q ∧
  ¬ ((125 # 10) == inject_Z 2 / inject_Z (1024 * 1024) * 6)%Q.
Proof.
  split; [reflexivity |].
  split; [eexists; split; reflexivity |].
  split; [reflexivity |].
  intros H. vm_compute in H. discriminate.
Qed.

(** C2, amended.  For the path of a file that exists, the probe never
    raises and leaves the world unchanged.  When [ffprobe] cannot be
    launched, or what it printed does not parse as a float, the result
    is exactly [size_in_bytes / (1024*1024) * 6]; when it printed a
    float, that float is the result, whatever the exit status. *)
Theorem get_audio_duration_spec (E : Env) (file_path : string) (w : World)
    (c : string) :
  audio w !! file_path = Some c →
  let size_in_bytes := Z.of_nat (String.length c) in
  ∃ d : Q,
    get_audio_duration E file_path w = (w, Ok d) ∧
    (∀ e, run_ffprobe E file_path = Raise e →
          d = (inject_Z size_in_bytes / inject_Z (1024 * 1024) * 6)%Q) ∧
    (∀ p, run_ffprobe E file_path = Ok p →
          py_float E (py_strip E (stdout p)) = None →
          d = (inject_Z size_in_bytes / inject_Z (1024 * 1024) * 6)%Q) ∧
    (∀ p x, run_ffprobe E file_path = Ok p →
            py_float E (py_strip E (stdout p)) = Some x →
            d = x).
Proof.
  intros Hc size_in_bytes. rewrite get_audio_duration_cases.
  unfold bind, stat_size, ret. rewrite Hc.
  destruct (run_ffprobe E file_path) as [p | e].
  - destruct (py_float E (py_strip E (stdout p))) as [x |] eqn:Hx.
    + exists x. repeat split; intros; congruence.
    + eexists. split; [reflexivity |].
      repeat split; intros; first [reflexivity | congruence].
  - eexists. split; [reflexivity |].
    repeat split; intros; first [reflexivity | congruence].
Qed.

Lemma get_audio_duration_spec_witness :
  ∃ d : Q,
    get_audio_duration Demo.env_probe_fails "a.wav" Demo.one_file =
      (Demo.one_file, Ok d) ∧
    d = (inject_Z 2 / inject_Z (1024 * 1024) * 6)%Q.
Proof.
  destruct (get_audio_duration_spec Demo.env_probe_fails "a.wav"
              Demo.one_file "AA" eq_refl) as (d & Hrun & _ & Hparse & _).
  exists d. split; [exact Hrun |].
  exact (Hparse {| returncode := 1; stdout := ""; stderr := "" |}
           eq_refl eq_refl).
Defined.

(** ** Binary64 arithmetic *)

(** Powers of two. *)
Lemma pow2_pos (e : Z) : (0 < pow2 e)%Q.
Proof. unfold pow2. by apply Qpower_0_lt. Qed.

Lemma pow2_add (a b : Z) : (pow2 (a + b) == pow2 a * pow2 b)%Q.
Proof. unfold pow2. by apply Qpower_plus. Qed.

Lemma pow2_succ (a : Z) : (pow2 (a + 1) == 2 * pow2 a)%Q.
Proof. rewrite pow2_add. unfold pow2 at 2. simpl. lra. Qed.

Lemma pow2_Z (n : Z) : 0 ≤ n → (pow2 n == inject_Z (2 ^ n))%Q.
Proof. intros Hn. unfold pow2. by rewrite Zpower_Qpower. Qed.

Lemma pow2_mono (a b : Z) : a ≤ b → (pow2 a <= pow2 b)%Q.
Proof. intros Hab. unfold pow2. by apply Qpower_le_compat_l. Qed.

Lemma pow2_lt (a b : Z) : a < b → (pow2 a < pow2 b)%Q.
Proof.
  intros Hab. apply Qlt_le_trans with (pow2 (a + 1)).
  - rewrite pow2_succ. pose proof (pow2_pos a). lra.
  - apply pow2_mono. lia.
Qed.

Lemma pow2_div (x : Q) (s : Z) : (x / pow2 s * pow2 s == x)%Q.
Proof. pose proof (pow2_pos s). field. lra. Qed.

Lemma binade_raw (x : Q) :
  (0 < x)%Q →
  let e := Z.log2 (Qnum x) - Z.log2 (Zpos (Qden x)) in
  (pow2 e < 2 * x ∧ x < 2 * pow2 e)%Q.
Proof.
  intros Hx. destruct x as [n d]. cbn [Qnum Qden].
  set (e := Z.log2 n - Z.log2 (Z.pos d)).
  assert (0 < n) as Hn by (unfold Qlt in Hx; simpl in Hx; lia).
  pose proof (Z.log2_spec n Hn) as [Hn1 Hn2].
  pose proof (Z.log2_spec (Z.pos d) ltac:(lia)) as [Hd1 Hd2].
  pose proof (Z.log2_nonneg n) as Ha. pose proof (Z.log2_nonneg (Z.pos d)) as Hb.
  set (a := Z.log2 n) in *. set (b := Z.log2 (Z.pos d)) in *.
  assert (pow2 a <= inject_Z n)%Q as HA1.
  { rewrite pow2_Z by lia. rewrite <- Zle_Qle. exact Hn1. }
  assert (inject_Z n < 2 * pow2 a)%Q as HA2.
  { rewrite <- pow2_succ, pow2_Z by lia. rewrite <- Zlt_Qlt.
    by replace (a + 1) with (Z.succ a) by lia. }
  assert (pow2 b <= inject_Z (Z.pos d))%Q as HB1.
  { rewrite pow2_Z by lia. rewrite <- Zle_Qle. exact Hd1. }
  assert (inject_Z (Z.pos d) < 2 * pow2 b)%Q as HB2.
  { rewrite <- pow2_succ, pow2_Z by lia. rewrite <- Zlt_Qlt.
    by replace (b + 1) with (Z.succ b) by lia. }
  assert (pow2 e * pow2 b == pow2 a)%Q as HP.
  { rewrite <- pow2_add. subst e. replace (a - b + b) with a by lia.
    reflexivity. }
  assert ((n # d) * inject_Z (Z.pos d) == inject_Z n)%Q as Hxd.
  { rewrite (Qmake_Qdiv n d). field. intros H. discriminate. }
  pose proof (pow2_pos e) as He. pose proof (pow2_pos b) as HB0.
  set (X := (n # d)%Q) in *. set (N := inject_Z n) in *.
  set (D := inject_Z (Z.pos d)) in *. set (P := pow2 e) in *.
  set (A := pow2 a) in *. set (B := pow2 b) in *.
  assert (0 < D)%Q as HD0 by lra.
  split.
  - apply (Qmult_lt_r _ _ D HD0).
    assert (P * D < P * (2 * B))%Q by (apply Qmult_lt_l; done).
    lra.
  - apply (Qmult_lt_r _ _ D HD0).
    assert (P * B <= P * D)%Q by (apply Qmult_le_l; done).
    lra.
Qed.

Lemma binade_spec (x : Q) :
  (0 < x)%Q → (pow2 (binade x) <= x ∧ x < pow2 (binade x + 1))%Q.
Proof.
  intros Hx. destruct (binade_raw x Hx) as [H1 H2]. unfold binade.
  set (e := Z.log2 (Qnum x) - Z.log2 (Z.pos (Qden x))) in *.
  destruct (Qle_bool (pow2 e) x) eqn:Hle.
  - apply Qle_bool_iff in Hle. split; [done |]. rewrite pow2_succ. lra.
  - assert (x < pow2 e)%Q as Hlt.
    { apply Qnot_le_lt. intros H. apply Qle_bool_iff in H. congruence. }
    replace (e - 1 + 1) with e by lia. split; [| done].
    pose proof (pow2_succ (e - 1)) as Hs.
    replace (e - 1 + 1) with e in Hs by lia. lra.
Qed.

Lemma binade_unique (x : Q) (e : Z) :
  (pow2 e <= x)%Q → (x < pow2 (e + 1))%Q → binade x = e.
Proof.
  intros H1 H2.
  assert (0 < x)%Q as Hx by (pose proof (pow2_pos e); lra).
  destruct (binade_spec x Hx) as [H3 H4].
  destruct (Z.lt_trichotomy (binade x) e) as [Hlt | [Heq | Hgt]]; [| done |].
  - pose proof (pow2_mono (binade x + 1) e ltac:(lia)). lra.
  - pose proof (pow2_mono (e + 1) (binade x) ltac:(lia)). lra.
Qed.

Lemma binade_mono (x y : Q) : (0 < x)%Q → (x <= y)%Q → binade x ≤ binade y.
Proof.
  intros Hx Hxy.
  destruct (binade_spec x Hx) as [H1 H2].
  destruct (binade_spec y ltac:(lra)) as [H3 H4].
  destruct (Z.le_gt_cases (binade x) (binade y)) as [? | Hgt]; [done |].
  pose proof (pow2_mono (binade y + 1) (binade x) ltac:(lia)). lra.
Qed.

(** Rounding to an integer. *)
Lemma rhe_cases (x : Q) :
  round_half_even x = Qfloor x ∨ round_half_even x = Qfloor x + 1.
Proof.
  unfold round_half_even.
  destruct (Qlt_le_dec _ _); [by left |].
  destruct (Qlt_le_dec _ _); [by right |].
  destruct (Z.even _); auto.
Qed.

Lemma rhe_int (k : Z) : round_half_even (inject_Z k) = k.
Proof.
  unfold round_half_even. rewrite Qfloor_Z.
  destruct (Qlt_le_dec _ _) as [? | H]; [done |]. exfalso. lra.
Qed.

Lemma rhe_bounds (x : Q) :
  (x - (1 # 2) <= inject_Z (round_half_even x) <= x + (1 # 2))%Q.
Proof.
  pose proof (Qfloor_le x) as Hf. pose proof (Qlt_floor x) as Hc.
  rewrite inject_Z_plus in Hc. change (inject_Z 1) with 1%Q in Hc.
  unfold round_half_even.
  destruct (Qlt_le_dec _ _) as [H1 | H1]; [lra |].
  destruct (Qlt_le_dec _ _) as [H2 | H2].
  { rewrite inject_Z_plus. change (inject_Z 1) with 1%Q. lra. }
  destruct (Z.even _); [lra |].
  rewrite inject_Z_plus. change (inject_Z 1) with 1%Q. lra.
Qed.

Lemma rhe_mono (x y : Q) :
  (x <= y)%Q → round_half_even x ≤ round_half_even y.
Proof.
  intros Hxy. pose proof (Qfloor_resp_le x y Hxy) as Hf.
  destruct (Z.eq_dec (Qfloor x) (Qfloor y)) as [Heq | Hne].
  - unfold round_half_even. rewrite Heq.
    destruct (Qlt_le_dec (x - _) _) as [H1 | H1];
      destruct (Qlt_le_dec (y - _) _) as [H2 | H2].
    + lia.
    + destruct (Qlt_le_dec _ (y - _)); [lia |]. destruct (Z.even _); lia.
    + exfalso. lra.
    + destruct (Qlt_le_dec _ (x - _)) as [H3 | H3];
        destruct (Qlt_le_dec _ (y - _)) as [H4 | H4].
      * lia.
      * exfalso. lra.
      * destruct (Z.even _); lia.
      * lia.
  - destruct (rhe_cases x) as [-> | ->]; destruct (rhe_cases y) as [-> | ->]; lia.
Qed.

(** Rounding to binary64. *)
Lemma Qabs_nonneg_eq (x : Q) : (0 <= x)%Q → Qabs x = x.
Proof.
  intros Hx. destruct x as [n d]. unfold Qabs. f_equal.
  apply Z.abs_eq. unfold Qle in Hx. simpl in Hx. lia.
Qed.

Lemma round64_pos (x : Q) :
  (0 < x)%Q →
  round64 x =
    (inject_Z (round_half_even (x / pow2 (Z.max (binade x - 52) (-1074)))) *
     pow2 (Z.max (binade x - 52) (-1074)))%Q.
Proof.
  intros Hx. unfold round64, ulp_exp.
  rewrite Qabs_nonneg_eq by lra.
  destruct (Qeq_bool x 0) eqn:Heq; [| done].
  apply Qeq_bool_iff in Heq. exfalso. lra.
Qed.

Lemma round64_zero (x : Q) : (x == 0)%Q → round64 x = 0%Q.
Proof.
  intros Hx. unfold round64.
  destruct (Qeq_bool x 0) eqn:Heq; [done |].
  apply Qeq_bool_neq in Heq. done.
Qed.

Lemma scaled_le (x c : Q) (k : Z) :
  (0 < c)%Q → (x <= inject_Z k * c)%Q →
  (inject_Z (round_half_even (x / c)) * c <= inject_Z k * c)%Q.
Proof.
  intros Hc Hx. apply Qmult_le_compat_r; [| lra].
  rewrite <- Zle_Qle.
  pose proof (rhe_mono (x / c) (inject_Z k)) as Hm.
  rewrite rhe_int in Hm. apply Hm. apply Qle_shift_div_r; done.
Qed.

Lemma scaled_ge (x c : Q) (k : Z) :
  (0 < c)%Q → (inject_Z k * c <= x)%Q →
  (inject_Z k * c <= inject_Z (round_half_even (x / c)) * c)%Q.
Proof.
  intros Hc Hx. apply Qmult_le_compat_r; [| lra].
  rewrite <- Zle_Qle.
  pose proof (rhe_mono (inject_Z k) (x / c)) as Hm.
  rewrite rhe_int in Hm. apply Hm. apply Qle_shift_div_l; done.
Qed.

Lemma round64_nonneg (x : Q) : (0 <= x)%Q → (0 <= round64 x)%Q.
Proof.
  intros Hx. destruct (Qeq_dec x 0) as [H0 | H0].
  - rewrite round64_zero by done. lra.
  - assert (0 < x)%Q as Hpos.
    { apply Qle_lteq in Hx as [? | Heq]; [done |]. by symmetry in Heq. }
    rewrite round64_pos by done.
    set (s := Z.max _ _). pose proof (pow2_pos s).
    pose proof (scaled_ge x (pow2 s) 0 ltac:(done)) as Hge.
    change (inject_Z 0) with 0%Q in Hge. lra.
Qed.

(** A positive number rounds to at most the top of its binade. *)
Lemma round64_upper (x : Q) :
  (0 < x)%Q →
  (round64 x <= pow2 (Z.max (binade x - 52) (-1074) + 53))%Q.
Proof.
  intros Hx. rewrite round64_pos by done.
  destruct (binade_spec x Hx) as [_ Hlt].
  set (s := Z.max _ _).
  pose proof (pow2_mono (binade x + 1) (s + 53) ltac:(lia)) as Hm.
  assert (pow2 (s + 53) == inject_Z (2 ^ 53) * pow2 s)%Q as Hpow.
  { rewrite pow2_add, (pow2_Z 53) by lia. ring. }
  rewrite Hpow in Hm |- *.
  apply scaled_le; [apply pow2_pos | lra].
Qed.

(** A normal number rounds to at least the bottom of its binade. *)
Lemma round64_lower (x : Q) :
  (0 < x)%Q → -1074 ≤ binade x - 52 →
  (pow2 (binade x) <= round64 x)%Q.
Proof.
  intros Hx Hn. rewrite round64_pos by done.
  destruct (binade_spec x Hx) as [Hle _].
  rewrite Z.max_l by done.
  set (s := binade x - 52) in *.
  assert (pow2 (binade x) == inject_Z (2 ^ 52) * pow2 s)%Q as Hpow.
  { replace (binade x) with (s + 52) by (subst s; lia).
    rewrite pow2_add, (pow2_Z 52) by lia. ring. }
  rewrite Hpow in Hle |- *.
  apply scaled_ge; [apply pow2_pos | done].
Qed.

Lemma round64_mono (x y : Q) :
  (0 <= x)%Q → (x <= y)%Q → (round64 x <= round64 y)%Q.
Proof.
  intros Hx Hxy. destruct (Qeq_dec x 0) as [H0 | H0].
  { rewrite (round64_zero x) by done. apply round64_nonneg. lra. }
  assert (0 < x)%Q as Hpx.
  { apply Qle_lteq in Hx as [? | Heq]; [done |]. by symmetry in Heq. }
  assert (0 < y)%Q as Hpy by lra.
  pose proof (binade_mono x y Hpx Hxy) as He.
  destruct (Z.eq_dec (Z.max (binade x - 52) (-1074))
              (Z.max (binade y - 52) (-1074))) as [Hs | Hs].
  - rewrite !round64_pos by done. rewrite Hs.
    set (s := Z.max (binade y - 52) _). pose proof (pow2_pos s) as Hp.
    apply Qmult_le_compat_r; [| lra].
    rewrite <- Zle_Qle. apply rhe_mono.
    apply Qmult_le_compat_r; [done |].
    apply Qlt_le_weak, Qinv_lt_0_compat, Hp.
  - apply Qle_trans with (pow2 (Z.max (binade x - 52) (-1074) + 53));
      [by apply round64_upper |].
    apply Qle_trans with (pow2 (binade y));
      [apply pow2_mono; lia | apply round64_lower; [done | lia]].
Qed.

(** The relative error of rounding a number that is at least one. *)
Lemma round64_rel_lower (x : Q) :
  (1 <= x)%Q → (x * (1 - (1 # 2 ^ 53)) <= round64 x)%Q.
Proof.
  intros Hx. assert (0 < x)%Q as Hpos by lra.
  assert (0 ≤ binade x) as He.
  { change 0 with (binade 1) at 1. apply binade_mono; [lra | done]. }
  rewrite round64_pos by done.
  destruct (binade_spec x Hpos) as [Hle _].
  rewrite Z.max_l by lia.
  set (s := binade x - 52) in *.
  assert (pow2 (binade x) == inject_Z (2 ^ 52) * pow2 s)%Q as Hpow.
  { replace (binade x) with (s + 52) by (subst s; lia).
    rewrite pow2_add, (pow2_Z 52) by lia. ring. }
  rewrite Hpow in Hle.
  pose proof (pow2_pos s) as Hp.
  destruct (rhe_bounds (x / pow2 s)) as [Hlo _].
  assert (x / pow2 s * pow2 s == x)%Q as Hdiv by apply pow2_div.
  assert ((x / pow2 s - (1 # 2)) * pow2 s <=
          inject_Z (round_half_even (x / pow2 s)) * pow2 s)%Q as Hm
    by (apply Qmult_le_compat_r; [done | lra]).
  change (inject_Z (2 ^ 52)) with (4503599627370496 # 1)%Q in Hle.
  change (1 # 2 ^ 53)%Q with (1 # 9007199254740992)%Q.
  lra.
Qed.

(** ** ProgressReporter *)

Lemma py_min_Qmin (a b : Q) : py_min a b = Qmin a b.
Proof.
  unfold py_min, Qmin, GenericMinMax.gmin.
  destruct (Qlt_le_dec b a) as [Hlt | Hle].
  - apply Qgt_alt in Hlt. by rewrite Hlt.
  - destruct (a ?= b)%Q eqn:Hc; [done | done |].
    apply Qgt_alt in Hc. lra.
Qed.

Lemma py_int_nonneg (x : Q) : (0 <= x)%Q → py_int x = Qfloor x.
Proof.
  intros Hx. unfold py_int, Qfloor. destruct x as [n d]. simpl.
  apply Z.quot_div_nonneg; [| lia].
  unfold Qle in Hx. simpl in Hx. lia.
Qed.

Lemma float_of_int_nonneg (z : Z) : 0 ≤ z → (0 <= float_of_int z)%Q.
Proof.
  intros Hz. apply round64_nonneg. change 0%Q with (inject_Z 0).
  by rewrite <- Zle_Qle.
Qed.

Lemma float_of_int_mono (a b : Z) :
  0 ≤ a → a ≤ b → (float_of_int a <= float_of_int b)%Q.
Proof.
  intros Ha Hab. apply round64_mono.
  - change 0%Q with (inject_Z 0). by rewrite <- Zle_Qle.
  - by rewrite <- Zle_Qle.
Qed.

Lemma quotient_nonneg (estimated_seconds : Q) (elapsed : Z) :
  (0 < estimated_seconds)%Q → 0 ≤ elapsed →
  (0 <= round64 (float_of_int elapsed / estimated_seconds))%Q.
Proof.
  intros Hest Hel. apply round64_nonneg.
  apply Qle_shift_div_l; [done |]. rewrite Qmult_0_l.
  by apply float_of_int_nonneg.
Qed.

Lemma quotient_mono (estimated_seconds : Q) (e1 e2 : Z) :
  (0 < estimated_seconds)%Q → 0 ≤ e1 → e1 ≤ e2 →
  (round64 (float_of_int e1 / estimated_seconds) <=
   round64 (float_of_int e2 / estimated_seconds))%Q.
Proof.
  intros Hest H1 H12. apply round64_mono.
  - apply Qle_shift_div_l; [done |]. rewrite Qmult_0_l.
    by apply float_of_int_nonneg.
  - unfold Qdiv. apply Qmult_le_compat_r; [by apply float_of_int_mono |].
    apply Qlt_le_weak, Qinv_lt_0_compat, Hest.
Qed.

Lemma float_0_99_bounds : (0 < float_0_99 ∧ float_0_99 < 1 - (1 # 2 ^ 53))%Q.
Proof. split; vm_compute; reflexivity. Qed.

Lemma progress_of_bounds (estimated_seconds : Q) (elapsed : Z) :
  (0 < estimated_seconds)%Q → 0 ≤ elapsed →
  (0 <= progress_of estimated_seconds elapsed <= float_0_99)%Q.
Proof.
  intros Hest Hel. unfold progress_of, py_min.
  pose proof (quotient_nonneg estimated_seconds elapsed Hest Hel) as Hq.
  destruct float_0_99_bounds as [Hc _].
  destruct (Qle_bool _ _); [| lra].
  destruct (Qlt_le_dec _ _); lra.
Qed.

(** Once the elapsed ticks reach the estimate, the rounded quotient is
    above the float [0.99]. *)
Lemma quotient_over (estimated_seconds : Q) (elapsed : Z) :
  (0 < estimated_seconds)%Q → (estimated_seconds <= inject_Z elapsed)%Q →
  (float_0_99 < round64 (float_of_int elapsed / estimated_seconds))%Q.
Proof.
  intros Hest Hover.
  destruct float_0_99_bounds as [_ Hc].
  set (c := (1 - (1 # 2 ^ 53))%Q) in *.
  assert (0 < c)%Q as Hc0 by (vm_compute; reflexivity).
  assert (1 <= inject_Z elapsed)%Q as Hone.
  { change 1%Q with (inject_Z 1). rewrite <- Zle_Qle.
    assert (0 < inject_Z elapsed)%Q as Hpos by lra.
    change 0%Q with (inject_Z 0) in Hpos. rewrite <- Zlt_Qlt in Hpos. lia. }
  pose proof (round64_rel_lower (inject_Z elapsed) Hone) as Hrel.
  fold c in Hrel. fold (float_of_int elapsed) in Hrel.
  assert (c <= float_of_int elapsed / estimated_seconds)%Q as Hdiv.
  { apply Qle_shift_div_l; [done |].
    apply Qle_trans with (inject_Z elapsed * c)%Q; [| done].
    rewrite (Qmult_comm (inject_Z elapsed)).
    apply Qmult_le_l; done. }
  assert (round64 c <= round64 (float_of_int elapsed / estimated_seconds))%Q
    as Hm by (apply round64_mono; lra).
  assert (round64 c == c)%Q as Hcc by (vm_compute; reflexivity).
  lra.
Qed.

Lemma progress_of_over (estimated_seconds : Q) (elapsed : Z) :
  (0 < estimated_seconds)%Q → (estimated_seconds <= inject_Z elapsed)%Q →
  progress_of estimated_seconds elapsed = float_0_99.
Proof.
  intros Hest Hover. unfold progress_of, py_min.
  pose proof (quotient_over estimated_seconds elapsed Hest Hover) as Hq.
  destruct (Qle_bool _ _); [| done].
  destruct (Qlt_le_dec _ _); [done |]. exfalso. lra.
Qed.

Lemma progress_of_mono (estimated_seconds : Q) (e1 e2 : Z) :
  (0 < estimated_seconds)%Q → 0 ≤ e1 → e1 ≤ e2 →
  (progress_of estimated_seconds e1 <= progress_of estimated_seconds e2)%Q.
Proof.
  intros Hest H1 Hle. unfold progress_of, py_min.
  pose proof (quotient_mono estimated_seconds e1 e2 Hest H1 Hle) as Hq.
  destruct (Qle_bool (round64 (float_of_int e1 / _)) _) eqn:Hb1;
    destruct (Qle_bool (round64 (float_of_int e2 / _)) _) eqn:Hb2.
  - repeat destruct (Qlt_le_dec _ _); lra.
  - destruct (Qlt_le_dec _ _); lra.
  - apply Qle_bool_iff in Hb2.
    assert (Qle_bool (round64 (float_of_int e1 / estimated_seconds)) DBL_MAX
            = true) as Hb by (apply Qle_bool_iff; lra).
    congruence.
  - lra.
Qed.

Lemma percent_of_floor (progress : Q) :
  (0 <= progress)%Q →
  percent_of progress = Qfloor (round64 (progress * float_of_int 100)).
Proof.
  intros Hp. unfold percent_of, float_mul. apply py_int_nonneg.
  apply round64_nonneg.
  assert (float_of_int 100 == 100)%Q as -> by (vm_compute; reflexivity). lra.
Qed.

Lemma filled_of_floor (progress : Q) :
  (0 <= progress)%Q →
  filled_of progress = Qfloor (round64 (float_of_int bar_width * progress)).
Proof.
  intros Hp. unfold filled_of, float_mul. apply py_int_nonneg.
  apply round64_nonneg.
  assert (float_of_int bar_width == 30)%Q as -> by (vm_compute; reflexivity).
  lra.
Qed.

Lemma percent_of_mono (p1 p2 : Q) :
  (0 <= p1)%Q → (p1 <= p2)%Q → percent_of p1 ≤ percent_of p2.
Proof.
  intros H1 H12. rewrite !percent_of_floor by lra.
  apply Qfloor_resp_le, round64_mono.
  - assert (float_of_int 100 == 100)%Q as -> by (vm_compute; reflexivity). lra.
  - apply Qmult_le_compat_r; [done |]. vm_compute. discriminate.
Qed.

Lemma filled_of_mono (p1 p2 : Q) :
  (0 <= p1)%Q → (p1 <= p2)%Q → filled_of p1 ≤ filled_of p2.
Proof.
  intros H1 H12. rewrite !filled_of_floor by lra.
  apply Qfloor_resp_le, round64_mono.
  - assert (float_of_int bar_width == 30)%Q as -> by (vm_compute; reflexivity).
    lra.
  - apply Qmult_le_l; [vm_compute; reflexivity | done].
Qed.

Lemma percent_of_bounds (progress : Q) :
  (0 <= progress <= float_0_99)%Q → 0 ≤ percent_of progress ≤ 99.
Proof.
  intros [Hlo Hhi]. split.
  - change 0 with (percent_of 0). apply percent_of_mono; lra.
  - change 99 with (percent_of float_0_99). by apply percent_of_mono.
Qed.

Lemma filled_of_bounds (progress : Q) :
  (0 <= progress <= float_0_99)%Q → 0 ≤ filled_of progress ≤ 29.
Proof.
  intros [Hlo Hhi]. split.
  - change 0 with (filled_of 0). apply filled_of_mono; lra.
  - change 29 with (filled_of float_0_99). by apply filled_of_mono.
Qed.

Lemma tick_not_done (estimated_seconds : Q) (idx : nat) :
  is_done (tick estimated_seconds idx) = false.
Proof. unfold tick. by destruct (Qlt_le_dec 0 estimated_seconds). Qed.

(** The loop stops at the first check that finds the flag set. *)
Lemma progress_loop_stops (is_set : nat → bool) (estimated_seconds : Q)
    (n : nat) :
  ∀ fuel idx,
    (∀ i, (idx ≤ i < idx + n)%nat → is_set i = false) →
    is_set (idx + n)%nat = true →
    (n < fuel)%nat →
    progress_loop fuel is_set estimated_seconds idx =
      Some (tick estimated_seconds <$> seq idx n, (idx + n)%nat).
Proof.
  induction n as [| n IH]; intros fuel idx Hbefore Hstop Hfuel.
  - destruct fuel as [| fuel]; [lia |]. simpl.
    rewrite Nat.add_0_r in Hstop. rewrite Hstop.
    by rewrite Nat.add_0_r.
  - destruct fuel as [| fuel]; [lia |]. simpl.
    rewrite (Hbefore idx) by lia.
    rewrite (IH fuel (S idx)).
    + replace (S idx + n)%nat with (idx + S n)%nat by lia. reflexivity.
    + intros i Hi. apply Hbefore. lia.
    + by replace (S idx + n)%nat with (idx + S n)%nat by lia.
    + lia.
Qed.

(** Whenever the loop returns, it has written one line per tick. *)
Lemma progress_loop_returns (is_set : nat → bool) (estimated_seconds : Q) :
  ∀ fuel idx ls n,
    progress_loop fuel is_set estimated_seconds idx = Some (ls, n) →
    (idx ≤ n)%nat ∧ ls = tick estimated_seconds <$> seq idx (n - idx) ∧
    is_set n = true ∧ ∀ i, (idx ≤ i < n)%nat → is_set i = false.
Proof.
  induction fuel as [| fuel IH]; intros idx ls n Hrun; [done |].
  simpl in Hrun. destruct (is_set idx) eqn:Hidx.
  - injection Hrun as <- <-. rewrite Nat.sub_diag.
    split_and!; [lia | done | done | lia].
  - destruct (progress_loop fuel is_set estimated_seconds (S idx))
      as [[ls' n'] |] eqn:Hrec; [| done].
    injection Hrun as <- <-.
    destruct (IH _ _ _ Hrec) as (Hle & -> & Hn & Hbefore).
    split_and!; [lia | | done |].
    + replace (n' - idx)%nat with (S (n' - S idx)) by lia. done.
    + intros i Hi. destruct (decide (i = idx)) as [-> | ?]; [done |].
      apply Hbefore. lia.
Qed.

(** C4.  For a positive estimate, let the reporter first see the stop
    flag set after [n] ticks.  It returns, and every line it wrote before
    that, at tick [idx], is a bar line whose progress is
    [min(elapsed / estimated, 0.99)] as the floats compute it: the smaller
    of the rounded quotient and the float [0.99], and [0.99] when the
    quotient overflows.  Its percentage is the integer part of the rounded
    product of the progress and a hundred, never above 99, and the bar
    never has more than 29 of its 30 cells filled; once the elapsed ticks
    reach the estimate the progress is [0.99] and the percentage stays at
    99. *)
Theorem progress_capped_below_100 (fuel : nat) (is_set : nat → bool)
    (file_name : string) (estimated_seconds : Q) (n : nat) :
  (0 < estimated_seconds)%Q →
  (∀ i, (i < n)%nat → is_set i = false) →
  is_set n = true →
  (n < fuel)%nat →
  ∃ ls,
    show_progress_bar fuel is_set file_name estimated_seconds = Some (ls, n) ∧
    ∀ idx, (idx < n)%nat →
      let elapsed := Z.of_nat idx in
      let quotient := round64 (float_of_int elapsed / estimated_seconds) in
      let progress := progress_of estimated_seconds elapsed in
      progress = (if Qle_bool quotient DBL_MAX then Qmin quotient float_0_99
                  else float_0_99) ∧
      (0 <= progress <= float_0_99)%Q ∧
      ls !! idx =
        Some (BarLine
                (str_repeat block (filled_of progress) +:+
                 str_repeat shade (bar_width - filled_of progress))
                (percent_of progress)
                (format_time elapsed)
                (format_time (py_int estimated_seconds))) ∧
      percent_of progress = Qfloor (round64 (progress * float_of_int 100)) ∧
      0 ≤ percent_of progress < 100 ∧
      0 ≤ filled_of progress < bar_width ∧
      ((estimated_seconds <= inject_Z elapsed)%Q →
       progress = float_0_99 ∧ percent_of progress = 99).
Proof.
  intros Hest Hbefore Hstop Hfuel.
  eexists. split.
  { unfold show_progress_bar.
    rewrite (progress_loop_stops is_set estimated_seconds n fuel 0%nat);
      [reflexivity | intros; apply Hbefore; lia | done | done]. }
  intros idx Hidx elapsed quotient progress.
  pose proof (progress_of_bounds estimated_seconds elapsed Hest ltac:(lia))
    as Hb.
  fold progress in Hb.
  split.
  { subst progress. unfold progress_of. fold quotient.
    by rewrite py_min_Qmin. }
  split; [exact Hb |].
  split.
  { rewrite lookup_app_l by (rewrite length_fmap, length_seq; lia).
    rewrite list_lookup_fmap, lookup_seq_lt by lia. simpl.
    unfold tick. destruct (Qlt_le_dec 0 estimated_seconds); [done | lra]. }
  split; [apply percent_of_floor, Hb |].
  split; [pose proof (percent_of_bounds progress Hb); lia |].
  split; [pose proof (filled_of_bounds progress Hb); unfold bar_width; lia |].
  intros Hover. subst progress.
  rewrite (progress_of_over estimated_seconds elapsed Hest Hover).
  split; reflexivity.
Qed.

Lemma progress_capped_below_100_witness :
  ∃ ls,
    show_progress_bar 200 (λ n, (101 <=? n)%nat) "a" 100 =
      Some (ls, 101%nat) ∧
    percent_of (progress_of 100 29) = 28 ∧
    filled_of (progress_of 100 29) = 8 ∧
    progress_of 100 100 = float_0_99 ∧
    percent_of (progress_of 100 100) = 99 ∧
    0 ≤ filled_of (progress_of 100 100) < bar_width.
Proof.
  destruct (progress_capped_below_100 200 (λ n, (101 <=? n)%nat) "a" 100
              101%nat eq_refl) as (ls & Hrun & Hticks).
  - intros i Hi. apply Nat.leb_gt. lia.
  - reflexivity.
  - lia.
  - exists ls. split; [exact Hrun |].
    destruct (Hticks 29%nat ltac:(lia)) as (_ & _ & _ & Hpct & _ & _ & _).
    destruct (Hticks 100%nat ltac:(lia))
      as (_ & _ & _ & _ & _ & Hfilled & Hover).
    destruct Hover as [Hprog Hcap]; [vm_compute; discriminate |].
    split; [refine (eq_trans Hpct _); vm_compute; reflexivity |].
    split; [vm_compute; reflexivity |].
    split; [exact Hprog |]. split; [exact Hcap | exact Hfilled].
Defined.

(** The rounding is visible in what is printed: with an estimate of 100
    seconds the tick 29 prints 28%, the float product of 0.29 and 100
    being just below 29. *)
Example tick_29_of_100_prints_28 :
  percent_of (progress_of 100 29) = 28 ∧
  Qfloor ((29 # 100) * 100) = 29.
Proof. split; vm_compute; reflexivity. Qed.

(** With an estimate one unit in the last place above 15 seconds, the
    tick 5 fills ten cells: the float product of 30 and the progress
    rounds up to 10, the exact product being just below it. *)
Example tick_5_of_15_fills_10 :
  let estimated_seconds := (15 + (1 # 2 ^ 49))%Q in
  round64 estimated_seconds = estimated_seconds ∧
  filled_of (progress_of estimated_seconds 5) = 10 ∧
  Qfloor (30 * (5 / estimated_seconds)) = 9.
Proof. split; [| split]; vm_compute; reflexivity. Qed.

Lemma ticks_not_done (estimated_seconds : Q) (idxs : list nat) :
  filter (λ l, is_done l = true) (tick estimated_seconds <$> idxs) = [].
Proof.
  induction idxs as [| idx idxs IH]; [done |]. simpl.
  rewrite filter_cons_False; [done |].
  by rewrite tick_not_done.
Qed.

(** C7.  When the reporter first sees the stop flag set, after [n] ticks,
    it has written [n] tick lines, none of them a completion line, and
    then writes exactly one completion line: its bar is thirty filled
    cells and its time is that of the [n] ticks, whatever the estimate
    was.  It then returns [n]. *)
Theorem show_progress_bar_final_line (fuel : nat) (is_set : nat → bool)
    (file_name : string) (estimated_seconds : Q) (n : nat) :
  (∀ i, (i < n)%nat → is_set i = false) →
  is_set n = true →
  (n < fuel)%nat →
  ∃ ticks : list line,
    show_progress_bar fuel is_set file_name estimated_seconds =
      Some (ticks ++
              [DoneLine "██████████████████████████████"
                        (format_time (Z.of_nat n))], n) ∧
    ticks = tick estimated_seconds <$> seq 0 n ∧
    length (filter (λ l, is_done l = true) ticks) = 0%nat ∧
    length (filter (λ l, is_done l = true)
              (ticks ++ [DoneLine "██████████████████████████████"
                                  (format_time (Z.of_nat n))])) = 1%nat ∧
    str_repeat block bar_width = "██████████████████████████████".
Proof.
  intros Hbefore Hstop Hfuel.
  exists (tick estimated_seconds <$> seq 0 n).
  split_and!.
  - unfold show_progress_bar.
    rewrite (progress_loop_stops is_set estimated_seconds n fuel 0%nat);
      [done | intros; apply Hbefore; lia | done | done].
  - done.
  - by rewrite ticks_not_done.
  - by rewrite filter_app, ticks_not_done.
  - reflexivity.
Qed.

Lemma show_progress_bar_final_line_witness :
  ∃ ticks : list line,
    show_progress_bar 10 (λ n, (3 <=? n)%nat) "a" (1 # 2) =
      Some (ticks ++
              [DoneLine "██████████████████████████████" "00:03"], 3%nat) ∧
    length ticks = 3%nat.
Proof.
  destruct (show_progress_bar_final_line 10 (λ n, (3 <=? n)%nat) "a" (1 # 2)
              3%nat) as (ticks & Hrun & -> & _).
  - intros i Hi. apply Nat.leb_gt. lia.
  - reflexivity.
  - lia.
  - exists (tick (1 # 2) <$> seq 0 3). split; [exact Hrun | reflexivity].
Defined.

(** ** Paths *)

Lemma string_app_nil (s : string) : "" +:+ s = s.
Proof. reflexivity. Qed.

Lemma string_app_cons (a : ascii) (s1 s2 : string) :
  String a s1 +:+ s2 = String a (s1 +:+ s2).
Proof. reflexivity. Qed.

Lemma string_app_length (s1 s2 : string) :
  String.length (s1 +:+ s2) = (String.length s1 + String.length s2)%nat.
Proof.
  induction s1 as [| a s1 IH]; [done |].
  rewrite string_app_cons. simpl. by rewrite IH.
Qed.

Lemma string_app_nil_r (s : string) : s +:+ "" = s.
Proof.
  induction s as [| a s IH]; [done |].
  by rewrite string_app_cons, IH.
Qed.

Lemma substring_all (s : string) : substring 0 (String.length s) s = s.
Proof. induction s as [| b s IH]; simpl; [done | by rewrite IH]. Qed.

Lemma substring_split (s : string) :
  ∀ i, (i ≤ String.length s)%nat →
    substring 0 i s +:+ substring i (String.length s - i) s = s.
Proof.
  induction s as [| a s IH]; intros [| i] Hi.
  - reflexivity.
  - simpl in Hi. lia.
  - rewrite Nat.sub_0_r, substring_all. reflexivity.
  - change (String a (substring 0 i s +:+
                      substring i (String.length s - i) s) = String a s).
    rewrite IH; [done |]. simpl in Hi. lia.
Qed.

Lemma rfind_bound (c : ascii) (s : string) (i : nat) :
  rfind c s = Some i → (i < String.length s)%nat.
Proof.
  revert i. induction s as [| a s IH]; intros i; simpl; [done |].
  destruct (rfind c s) as [j |].
  - intros [= <-]. specialize (IH j eq_refl). lia.
  - destruct (Ascii.eqb a c); [intros [= <-]; lia | done].
Qed.

(** A name is its stem followed by its suffix. *)
Lemma stem_suffix (name : string) :
  Path.stem name +:+ Path.suffix name = name.
Proof.
  unfold Path.stem, Path.suffix.
  destruct (rfind "." name) as [i |] eqn:Hi.
  - destruct ((0 <? i)%nat && (i <? String.length name - 1)%nat).
    + apply substring_split. apply rfind_bound in Hi. lia.
    + apply string_app_nil_r.
  - apply string_app_nil_r.
Qed.

(** The name used on a clash is never the name of the file itself. *)
Lemma timestamped_fresh (E : Env) (i : nat) (f : string) :
  timestamped E i f ≠ f.
Proof.
  intros Heq. apply (f_equal String.length) in Heq.
  pose proof (f_equal String.length (stem_suffix f)) as Hlen.
  rewrite string_app_length in Hlen.
  unfold timestamped in Heq. rewrite !string_app_length in Heq.
  simpl in Heq. lia.
Qed.

Lemma string_app_inj_r (t s1 s2 : string) : s1 +:+ t = s2 +:+ t → s1 = s2.
Proof.
  revert s2. induction s1 as [| a s1 IH]; intros [| b s2] Heq.
  - done.
  - apply (f_equal String.length) in Heq.
    rewrite !string_app_length in Heq. simpl in Heq. lia.
  - apply (f_equal String.length) in Heq.
    rewrite !string_app_length in Heq. simpl in Heq. lia.
  - rewrite !string_app_cons in Heq. injection Heq as -> Heq.
    f_equal. by apply IH.
Qed.

Lemma output_name_stem (f g : string) :
  output_name f = output_name g ↔ Path.stem f = Path.stem g.
Proof.
  unfold output_name. split; [apply string_app_inj_r | by intros ->].
Qed.

(** ** Discovery *)

Lemma discover_elem_of (w : World) (f : string) :
  f ∈ discover w ↔ supported f ∧ is_Some (audio w !! f).
Proof.
  unfold discover, iterdir.
  rewrite merge_sort_Permutation, list_elem_of_filter, list_elem_of_fmap.
  split.
  - intros [Hs ([g c] & -> & Hin)]. split; [done |].
    apply elem_of_map_to_list in Hin. by exists c.
  - intros [Hs [c Hc]]. split; [done |].
    exists (f, c). split; [done |]. by apply elem_of_map_to_list.
Qed.

Lemma discover_NoDup (w : World) : NoDup (discover w).
Proof.
  unfold discover, iterdir. rewrite merge_sort_Permutation.
  apply NoDup_filter, NoDup_fst_map_to_list.
Qed.

Lemma discover_sorted (w : World) : StronglySorted String.le (discover w).
Proof. unfold discover. apply StronglySorted_merge_sort; apply _. Qed.

(** In the order of processing, a file comes before the files whose
    names are greater. *)
Lemma discover_order (w : World) (f1 f2 : string) :
  f1 ∈ discover w → f2 ∈ discover w → String.le f1 f2 → f1 ≠ f2 →
  ∃ l1 l2 l3,
    discover w = l1 ++ f1 :: l2 ++ f2 :: l3 ∧
    ∀ g, g ∈ l3 → String.le f2 g ∧ g ≠ f2.
Proof.
  intros H1 H2 Hle Hne.
  pose proof (discover_sorted w) as Hs. pose proof (discover_NoDup w) as Hnd.
  destruct (list_elem_of_split _ _ H1) as (l1 & r & Hl).
  rewrite Hl in H2, Hs, Hnd |- *.
  apply elem_of_app in H2 as [H2 | H2].
  - exfalso. apply Hne.
    apply (anti_symm String.le); [done |].
    eapply (StronglySorted_app_1_elem_of _ l1 (f1 :: r)); [done | done |].
    apply list_elem_of_here.
  - apply elem_of_cons in H2 as [-> | H2]; [done |].
    destruct (list_elem_of_split _ _ H2) as (l2 & l3 & ->).
    exists l1, l2, l3. split; [done |].
    intros g Hg. split.
    + apply StronglySorted_app_1_r in Hs.
      apply StronglySorted_cons in Hs as [_ Hs].
      apply StronglySorted_app_1_r in Hs.
      apply StronglySorted_cons in Hs as [Hs _].
      by eapply Forall_forall in Hs.
    + intros ->. apply NoDup_app in Hnd as (_ & _ & Hnd).
      apply NoDup_cons in Hnd as [_ Hnd].
      apply NoDup_app in Hnd as (_ & _ & Hnd).
      apply NoDup_cons in Hnd as [Hnd _]. done.
Qed.

(** ** One file *)

Lemma get_audio_duration_total (E : Env) (f : string) (w : World) (c : string) :
  audio w !! f = Some c → ∃ d, get_audio_duration E f w = (w, Ok d).
Proof.
  intros Hc. rewrite get_audio_duration_cases.
  unfold bind, stat_size, ret. rewrite Hc.
  destruct (run_ffprobe E f) as [p | e]; [| by eexists].
  destruct (py_float E (py_strip E (stdout p))); by eexists.
Qed.

Lemma archive_run (E : Env) (i : nat) (f : string) (w : World) (c : string) :
  audio w !! f = Some c →
  archive E i f w =
    ({| audio := delete f (audio w); out := out w;
        hist := <[archive_name E i f w := c]> (hist w);
        log := log w ++ [EMove f (archive_name E i f w)] |},
     Ok (archive_name E i f w)).
Proof.
  intros Hc.
  unfold archive, bind, historical_exists, shutil_move, ret, archive_name,
    timestamped.
  destruct (bool_decide (is_Some (hist w !! f))); by rewrite Hc.
Qed.

Lemma process_file_ok (E : Env) (i : nat) (f : string) (w : World)
    (c t : string) :
  audio w !! f = Some c → transcribe E f c = Ok t →
  process_file E i f w = (after_file E i f w, Ok (result_of E w i f)).
Proof.
  intros Hc Ht.
  destruct (get_audio_duration_total E f w c Hc) as [d Hd].
  unfold process_file, bind at 1. rewrite Hd.
  unfold bind at 1, model_transcribe, bind at 1, emit, record. simpl.
  rewrite Hc, Ht.
  unfold bind at 1, write_text. simpl.
  unfold bind at 1. rewrite (archive_run E i f _ c) by done. simpl.
  unfold ret, after_file, result_of, text_of, content_of, archive_name.
  simpl. rewrite Hc. simpl. rewrite Ht.
  by rewrite <- !(assoc_L (++)).
Qed.

Lemma process_file_raises (E : Env) (i : nat) (f : string) (w : World)
    (c : string) (e : exn) :
  audio w !! f = Some c → transcribe E f c = Raise e →
  process_file E i f w = (record (ETranscribe f "es") w, Raise e).
Proof.
  intros Hc Ht.
  destruct (get_audio_duration_total E f w c Hc) as [d Hd].
  unfold process_file, bind at 1. rewrite Hd.
  unfold bind at 1, model_transcribe, bind at 1, emit. simpl.
  by rewrite Hc, Ht.
Qed.

(** ** Archiving *)

(** C5, as stated, fails: when the archive already holds both a file of
    the same name and a file with the timestamped name, the move lands
    on the latter and replaces it.  Here the archive holds two files
    before the run and two after it; the contents [second] are gone. *)
Lemma archive_overwrites_on_timestamp_clash :
  let w := Demo.crowded_archive in
  let w' := (main Demo.env w).1 in
  (main Demo.env w).2 = Ok tt ∧
  hist w !! "a.wav" = Some "first" ∧
  hist w !! "a_20240101_120000.wav" = Some "second" ∧
  hist w' !! "a.wav" = Some "first" ∧
  hist w' !! "a_20240101_120000.wav" = Some "third" ∧
  size (hist w') = 2%nat.
Proof. vm_compute. repeat split; reflexivity. Qed.

(** C5, amended.  Moving a processed file into the archive stores it
    under its own name when that name is free there, and under
    [<stem>_<timestamp><suffix>] when it is taken; that name differs
    from the file's, so the file archived earlier under the same name is
    still there with its contents and both are present afterwards.
    Every other archived file is kept as it was, except a file that
    already bears the timestamped name: when no such file exists,
    nothing in the archive is overwritten and the archive grows by one. *)
Theorem archive_keeps_history (E : Env) (i : nat) (f : string) (w : World)
    (c : string) :
  audio w !! f = Some c →
  ∃ w' dst,
    archive E i f w = (w', Ok dst) ∧
    audio w' !! f = None ∧
    hist w' !! dst = Some c ∧
    (hist w !! f = None → dst = f) ∧
    (∀ old, hist w !! f = Some old →
       dst = Path.stem f +:+ "_" +:+ strftime E i +:+ Path.suffix f ∧
       dst ≠ f ∧
       hist w' !! f = Some old) ∧
    (∀ g, g ≠ dst → hist w' !! g = hist w !! g) ∧
    (hist w !! dst = None →
       (∀ g old, hist w !! g = Some old → hist w' !! g = Some old) ∧
       size (hist w') = S (size (hist w))).
Proof.
  intros Hc. rewrite (archive_run E i f w c Hc).
  eexists _, _. split; [reflexivity |]. simpl.
  split; [apply lookup_delete_eq |].
  split; [apply lookup_insert_eq |].
  split.
  { intros Hn. unfold archive_name. rewrite Hn.
    rewrite bool_decide_eq_false_2; [done |]. by intros [? ?]. }
  split.
  { intros old Hold. unfold archive_name. rewrite Hold.
    rewrite bool_decide_eq_true_2 by eauto.
    split; [done |]. split; [apply timestamped_fresh |].
    rewrite lookup_insert_ne; [done | apply timestamped_fresh]. }
  split.
  { intros g Hg. by rewrite lookup_insert_ne. }
  intros Hfree. split.
  - intros g old Hg. rewrite lookup_insert_ne; [done |]. congruence.
  - by apply map_size_insert_None.
Qed.

Lemma archive_keeps_history_witness :
  ∃ w',
    archive Demo.env 1 "a.wav" Demo.archived_once =
      (w', Ok "a_20240101_120000.wav") ∧
    hist w' !! "a.wav" = Some "old" ∧
    hist w' !! "a_20240101_120000.wav" = Some "AA".
Proof.
  destruct (archive_keeps_history Demo.env 1 "a.wav" Demo.archived_once "AA"
              eq_refl) as (w' & dst & Hrun & _ & Hnew & _ & Hclash & _).
  destruct (Hclash "old" eq_refl) as (Hdst & _ & Hold).
  exists w'. rewrite Hdst in Hrun, Hnew.
  split; [exact Hrun |]. split; [exact Hold | exact Hnew].
Defined.

(** ** Writing the output *)

(** C9.  When the output directory already holds [<stem>.txt], processing
    a file with that stem replaces the contents of that file by the new
    text and creates no other file: the directory keeps the same names
    and the same number of files, every other file is unchanged, exactly
    one write is made, and writing the text that is already there leaves
    the directory as it was. *)
Theorem output_overwritten_in_place (E : Env) (i : nat) (f : string)
    (w : World) (c t old : string) :
  audio w !! f = Some c →
  transcribe E f c = Ok t →
  out w !! (Path.stem f +:+ ".txt") = Some old →
  ∃ w' r,
    process_file E i f w = (w', Ok r) ∧
    out w' !! (Path.stem f +:+ ".txt") = Some (py_strip E t) ∧
    dom (out w') = dom (out w) ∧
    size (out w') = size (out w) ∧
    (∀ k, k ≠ Path.stem f +:+ ".txt" → out w' !! k = out w !! k) ∧
    (∃ evs, log w' = log w ++ evs ∧
            written evs = [(Path.stem f +:+ ".txt", py_strip E t)]) ∧
    (old = py_strip E t → out w' = out w).
Proof.
  intros Hc Ht Hold. rewrite (process_file_ok E i f w c t Hc Ht).
  eexists _, _. split; [reflexivity |].
  assert (text_of E w f = py_strip E t) as Htext.
  { unfold text_of, content_of. rewrite Hc. simpl. by rewrite Ht. }
  unfold after_file, output_name. simpl. rewrite Htext.
  split; [apply lookup_insert_eq |].
  split.
  { rewrite dom_insert_L.
    assert (Path.stem f +:+ ".txt" ∈ dom (out w)) as Hin
      by (apply elem_of_dom; eauto).
    apply set_eq. intros k. rewrite elem_of_union, elem_of_singleton.
    split; [intros [-> | ?]; done | by right]. }
  split; [by apply map_size_insert_Some |].
  split; [intros k Hk; by rewrite lookup_insert_ne |].
  split; [eexists; split; reflexivity |].
  intros ->. by apply insert_id.
Qed.

Lemma output_overwritten_in_place_witness :
  ∃ w' r,
    process_file Demo.env 1 "a.wav" Demo.archived_once = (w', Ok r) ∧
    out w' !! "a.txt" = Some "hola mundo" ∧
    size (out w') = 1%nat.
Proof.
  destruct (output_overwritten_in_place Demo.env 1 "a.wav" Demo.archived_once
              "AA" " hola mundo " "viejo" eq_refl eq_refl eq_refl)
    as (w' & r & Hrun & Hnew & _ & Hsize & _).
  exists w', r. split; [exact Hrun |]. split; [exact Hnew |].
  rewrite Hsize. reflexivity.
Defined.

(** ** The batch *)

Lemma after_file_audio_ne (E : Env) (i : nat) (f g : string) (w : World) :
  g ≠ f → audio (after_file E i f w) !! g = audio w !! g.
Proof. intros Hne. simpl. by rewrite lookup_delete_ne. Qed.

Lemma after_file_content_ne (E : Env) (i : nat) (f g : string) (w : World) :
  g ≠ f → content_of (after_file E i f w) g = content_of w g.
Proof. intros Hne. unfold content_of. by rewrite after_file_audio_ne. Qed.

Lemma after_file_text_ne (E : Env) (i : nat) (f g : string) (w : World) :
  g ≠ f → text_of E (after_file E i f w) g = text_of E w g.
Proof.
  intros Hne. unfold text_of, content_of.
  by rewrite after_file_audio_ne.
Qed.

Lemma after_file_engine_ok (E : Env) (i : nat) (f g : string) (w : World) :
  g ≠ f → engine_ok E w g → engine_ok E (after_file E i f w) g.
Proof.
  intros Hne (c & t & Hc & Ht). exists c, t.
  by rewrite after_file_audio_ne.
Qed.

Lemma after_files_audio (E : Env) (fs : list string) :
  ∀ i w g,
    audio (after_files E i fs w) !! g =
      if decide (g ∈ fs) then None else audio w !! g.
Proof.
  induction fs as [| f fs IH]; intros i w g; cbn [after_files].
  - destruct (decide (g ∈ [])) as [Hin | ?]; [by apply elem_of_nil in Hin | done].
  - rewrite IH. cbn [after_file audio].
    destruct (decide (g ∈ fs)) as [Hin | Hnin];
      destruct (decide (g ∈ f :: fs)) as [Hin' | Hnin']; try done.
    + exfalso. apply Hnin'. by apply list_elem_of_further.
    + apply elem_of_cons in Hin' as [-> | ?]; [| done].
      apply lookup_delete_eq.
    + apply lookup_delete_ne. intros ->. apply Hnin', list_elem_of_here.
Qed.

Lemma after_files_hist_mono (E : Env) (fs : list string) :
  ∀ i w d, is_Some (hist w !! d) → is_Some (hist (after_files E i fs w) !! d).
Proof.
  induction fs as [| f fs IH]; intros i w d Hd; simpl; [done |].
  apply IH. simpl. rewrite lookup_insert. by case_decide.
Qed.

Lemma after_files_out (E : Env) (fs : list string) :
  ∀ i w, NoDup fs →
    out (after_files E i fs w) =
      foldl (λ o f, <[output_name f := text_of E w f]> o) (out w) fs.
Proof.
  induction fs as [| f fs IH]; intros i w Hnd; simpl; [done |].
  apply NoDup_cons in Hnd as [Hf Hnd]. rewrite IH by done. simpl.
  generalize (<[output_name f := text_of E w f]> (out w)). clear IH.
  induction fs as [| g fs IHfs]; intros o; simpl; [done |].
  apply not_elem_of_cons in Hf as [Hne Hf].
  apply NoDup_cons in Hnd as [_ Hnd].
  rewrite after_file_text_ne by done. by apply IHfs.
Qed.

(** What the trace gains while a list of files is processed. *)
Lemma after_files_log (E : Env) (fs : list string) :
  ∀ i w, NoDup fs →
    ∃ evs,
      log (after_files E i fs w) = log w ++ evs ∧
      transcribed evs = fs ∧
      written evs = (λ f, (output_name f, text_of E w f)) <$> fs ∧
      (moved evs).*1 = fs ∧
      loaded evs = [] ∧ notified evs = [] ∧
      ∀ s d, (s, d) ∈ moved evs →
        is_Some (hist (after_files E i fs w) !! d).
Proof.
  induction fs as [| f fs IH]; intros i w Hnd; simpl.
  - exists []. rewrite app_nil_r. split_and!; try done.
    intros s d Hin. by apply elem_of_nil in Hin.
  - apply NoDup_cons in Hnd as [Hf Hnd].
    destruct (IH (S i) (after_file E i f w) Hnd)
      as (evs & Hlog & Htr & Hwr & Hmv & Hld & Hnt & Hhist).
    exists ([ETranscribe f "es"; EWriteText (output_name f) (text_of E w f);
             EMove f (archive_name E i f w)] ++ evs).
    split_and!.
    + rewrite Hlog. simpl. by rewrite <- (assoc_L (++)).
    + simpl. by rewrite Htr.
    + simpl. rewrite Hwr. f_equal.
      apply Forall_fmap_ext, Forall_forall. intros g Hg. f_equal.
      apply after_file_text_ne. by intros ->.
    + simpl. f_equal. exact Hmv.
    + done.
    + done.
    + intros s d Hin. simpl in Hin.
      apply elem_of_cons in Hin as [[= -> ->] | Hin]; [| by eapply Hhist].
      apply after_files_hist_mono. simpl. rewrite lookup_insert_eq. eauto.
Qed.

Lemma foldl_ext_elem_of {A B : Type} (f g : B → A → B) (l : list A) :
  (∀ b a, a ∈ l → f b a = g b a) → ∀ b, foldl f b l = foldl g b l.
Proof.
  induction l as [| a l IH]; intros Hfg b; simpl; [done |].
  rewrite (Hfg b a) by apply list_elem_of_here.
  apply IH. intros b' a' Ha'. apply Hfg. by apply list_elem_of_further.
Qed.

(** What the archive gains while a list of files is processed: every
    move stores the contents the moved file had, under the name of the
    file or under its timestamped name. *)
Lemma after_files_moves (E : Env) (fs : list string) :
  ∀ i w, NoDup fs →
    ∃ evs,
      log (after_files E i fs w) = log w ++ evs ∧
      (moved evs).*1 = fs ∧
      hist (after_files E i fs w) =
        foldl (λ h sd, <[sd.2 := content_of w sd.1]> h) (hist w) (moved evs) ∧
      Forall (λ sd, sd.2 = sd.1 ∨ ∃ j, sd.2 = timestamped E j sd.1)
        (moved evs).
Proof.
  induction fs as [| f fs IH]; intros i w Hnd; simpl.
  - exists []. rewrite app_nil_r. by split_and!.
  - apply NoDup_cons in Hnd as [Hf Hnd].
    destruct (IH (S i) (after_file E i f w) Hnd)
      as (evs & Hlog & Hmv & Hhist & Hdst).
    exists ([ETranscribe f "es"; EWriteText (output_name f) (text_of E w f);
             EMove f (archive_name E i f w)] ++ evs).
    split; [| split; [| split]].
    + rewrite Hlog. simpl. by rewrite <- (assoc_L (++)).
    + simpl. f_equal. exact Hmv.
    + rewrite Hhist. simpl. apply foldl_ext_elem_of.
      intros h [s d] Hin. simpl. rewrite after_file_content_ne; [done |].
      intros ->. apply Hf. rewrite <- Hmv.
      apply list_elem_of_fmap. by exists (f, d).
    + simpl. constructor; [| exact Hdst]. simpl. unfold archive_name.
      case_bool_decide; [right; by exists i | by left].
Qed.

Lemma process_all_ok (E : Env) (fs : list string) :
  ∀ i total_time results w,
    NoDup fs → (∀ f, f ∈ fs → engine_ok E w f) →
    ∃ tr, process_all E fs i total_time results w =
            (after_files E i fs w, Ok tr).
Proof.
  induction fs as [| f fs IH]; intros i total_time results w Hnd Hok; simpl.
  - by eexists.
  - apply NoDup_cons in Hnd as [Hf Hnd].
    destruct (Hok f) as (c & t & Hc & Ht); [apply list_elem_of_here |].
    unfold bind. rewrite (process_file_ok E i f w c t Hc Ht).
    apply IH; [done |]. intros g Hg.
    apply after_file_engine_ok; [by intros -> |].
    apply Hok. by apply list_elem_of_further.
Qed.

Lemma process_all_raises (E : Env) (done rest : list string) (f_k : string)
    (c_k : string) (e : exn) :
  ∀ i total_time results w,
    NoDup (done ++ f_k :: rest) →
    (∀ f, f ∈ done → engine_ok E w f) →
    audio w !! f_k = Some c_k → transcribe E f_k c_k = Raise e →
    process_all E (done ++ f_k :: rest) i total_time results w =
      (record (ETranscribe f_k "es") (after_files E i done w), Raise e).
Proof.
  induction done as [| f done IH]; intros i total_time results w Hnd Hok Hc He;
    simpl.
  - unfold bind. by rewrite (process_file_raises E i f_k w c_k e Hc He).
  - apply NoDup_cons in Hnd as [Hf Hnd].
    destruct (Hok f) as (c & t & Hcf & Ht); [apply list_elem_of_here |].
    unfold bind. rewrite (process_file_ok E i f w c t Hcf Ht).
    apply IH; [done | | |done].
    + intros g Hg. apply after_file_engine_ok.
      * intros ->. apply Hf. apply elem_of_app. by left.
      * apply Hok. by apply list_elem_of_further.
    + rewrite after_file_audio_ne; [done |].
      intros ->. apply Hf. apply elem_of_app. right. apply list_elem_of_here.
Qed.

Lemma list_files_ok (E : Env) (fs : list string) (w : World) :
  (∀ f, f ∈ fs → is_Some (audio w !! f)) → list_files E fs w = (w, Ok tt).
Proof.
  induction fs as [| f fs IH]; intros Hin; simpl; [done |].
  destruct (Hin f) as [c Hc]; [apply list_elem_of_here |].
  destruct (get_audio_duration_total E f w c Hc) as [d Hd].
  unfold bind, stat_size. rewrite Hc, Hd. apply IH.
  intros g Hg. apply Hin. by apply list_elem_of_further.
Qed.

Lemma prepare_ok (E : Env) (fs : list string) (w : World) (p : CompletedProcess) :
  whisper_load_model E "medium" = Ok tt →
  run_osascript E
    (notify_script "Transcriptor" (start_message (length fs)) true) = Ok p →
  prepare E fs w =
    (record (ENotify "Transcriptor" (start_message (length fs)) true)
       (record (ELoadModel "medium") w), Ok tt).
Proof.
  intros Hload Hrun. unfold prepare, bind, emit, lift, notify, bind, lift, emit.
  by rewrite Hload, Hrun.
Qed.

(** The summary touches no directory and makes no engine call, write or
    move. *)
Lemma summarize_frame (E : Env) (total_time : Z) (results : list file_result)
    (w : World) :
  ∃ evs r,
    summarize E total_time results w =
      ({| audio := audio w; out := out w; hist := hist w;
          log := log w ++ evs |}, r) ∧
    transcribed evs = [] ∧ written evs = [] ∧ moved evs = [].
Proof.
  unfold summarize, bind, notify, bind, lift, emit, record.
  destruct (run_osascript E _) as [p | e]; simpl.
  - destruct (run_open E OUTPUT_DIR) as [q | e]; simpl.
    + eexists _, _. rewrite <- (assoc_L (++)). by split_and!.
    + eexists [_], _. by split_and!.
  - exists [], (Raise e). rewrite app_nil_r. destruct w. by split_and!.
Qed.

(** A run that finds files is the listing, the preparation, the loop and
    the summary. *)
Lemma main_with_files (E : Env) (w : World) :
  discover w ≠ [] →
  main E w =
    (_ ←← list_files E (discover w);
     _ ←← prepare E (discover w);
     tr ←← process_all E (discover w) 1 0 [];
     summarize E tr.1 tr.2) w.
Proof.
  intros Hne. unfold main. unfold bind at 1.
  by destruct (discover w).
Qed.

(** ** Folding the writes *)

Section fold_insert.
Context (k : string → string) (v : string → string).

Let ins (o : gmap string string) (f : string) : gmap string string :=
  <[k f := v f]> o.

Lemma foldl_insert_notin (fs : list string) :
  ∀ o x, (∀ g, g ∈ fs → k g ≠ x) → foldl ins o fs !! x = o !! x.
Proof.
  induction fs as [| f fs IH]; intros o x Hx; simpl; [done |].
  rewrite IH by (intros g Hg; apply Hx; by apply list_elem_of_further).
  unfold ins. apply lookup_insert_ne, Hx, list_elem_of_here.
Qed.

Lemma foldl_insert_mono (fs : list string) :
  ∀ o x, is_Some (o !! x) → is_Some (foldl ins o fs !! x).
Proof.
  induction fs as [| f fs IH]; intros o x Hx; simpl; [done |].
  apply IH. unfold ins. rewrite lookup_insert. by case_decide.
Qed.

(** The last write to a name decides its contents. *)
Lemma foldl_insert_last (pre post : list string) (f : string)
    (o : gmap string string) :
  (∀ g, g ∈ post → k g ≠ k f) →
  foldl ins o (pre ++ f :: post) !! k f = Some (v f).
Proof.
  intros Hpost. rewrite foldl_app. simpl.
  rewrite foldl_insert_notin by done. apply lookup_insert_eq.
Qed.

Lemma foldl_insert_is_Some (fs : list string) (f : string)
    (o : gmap string string) :
  f ∈ fs → is_Some (foldl ins o fs !! k f).
Proof.
  intros Hin. destruct (list_elem_of_split _ _ Hin) as (pre & post & ->).
  rewrite foldl_app. simpl. apply foldl_insert_mono.
  unfold ins. rewrite lookup_insert_eq. eauto.
Qed.

Lemma foldl_insert_dom (fs : list string) :
  ∀ o, dom (foldl ins o fs) = dom o ∪ list_to_set (k <$> fs).
Proof.
  induction fs as [| f fs IH]; intros o; simpl.
  - by rewrite (right_id_L ∅ (∪)).
  - rewrite IH. unfold ins. rewrite dom_insert_L.
    rewrite (assoc_L (∪)). f_equal. apply (comm_L (∪)).
Qed.
End fold_insert.

(** When every write to a name carries the same contents, and there is
    one, the name holds these contents in the end. *)
Lemma foldl_insert_agree {A : Type} (k v : A → string) (l : list A)
    (x c : string) :
  ∀ h : gmap string string,
    (∃ a, a ∈ l ∧ k a = x) → (∀ a, a ∈ l → k a = x → v a = c) →
    foldl (λ h a, <[k a := v a]> h) h l !! x = Some c.
Proof.
  induction l as [| a l IH] using rev_ind; intros h (b & Hb & Hkb) Hall.
  - inversion Hb.
  - rewrite foldl_app. simpl.
    destruct (decide (k a = x)) as [Heq | Hne].
    + rewrite <- Heq, lookup_insert_eq. f_equal. apply Hall; [| done].
      apply elem_of_app. right. apply list_elem_of_here.
    + rewrite lookup_insert_ne by done. apply IH.
      * exists b. split; [| done].
        apply elem_of_app in Hb as [? | Hb]; [done |].
        apply list_elem_of_singleton in Hb. by subst.
      * intros a' Ha'. apply Hall. apply elem_of_app. by left.
Qed.

(** ** No files *)

Lemma discover_nil (w : World) :
  Forall (λ f, ¬ supported f) (iterdir w) → discover w = [].
Proof.
  intros Hall. unfold discover.
  assert (filter supported (iterdir w) = []) as ->; [| done].
  induction Hall as [| f fs Hf _ IH]; [done |].
  by rewrite filter_cons_False.
Qed.

(** C8, as stated, fails: with an empty input directory the only thing
    [main] does is call [notify], and without [osascript] on the search
    path that call raises; no notification fires and the program does
    not return normally. *)
Lemma no_files_without_osascript_raises :
  Forall (λ f, ¬ supported f) (iterdir Demo.empty_world) ∧
  main Demo.env_no_osascript Demo.empty_world =
    (Demo.empty_world, Raise (FileNotFoundError "osascript")).
Proof.
  split; [| reflexivity].
  apply (bool_decide_unpack _). vm_compute. exact I.
Qed.

(** C8, amended.  When no file of the input directory has a supported
    extension, [main] makes no model load, no engine call, no write and
    no move, and leaves the three directories as they were.  If
    [osascript] can be launched, exactly one notification, the
    no-files one, fires and the program returns without error; if it
    cannot, the launch error propagates and nothing else happens. *)
Theorem no_files_short_circuit (E : Env) (w : World) :
  Forall (λ f, ¬ supported f) (iterdir w) →
  (∀ p, run_osascript E
          (notify_script "Transcriptor" no_files_message true) = Ok p →
        main E w =
          (record (ENotify "Transcriptor" no_files_message true) w, Ok tt)) ∧
  (∀ e, run_osascript E
          (notify_script "Transcriptor" no_files_message true) = Raise e →
        main E w = (w, Raise e)) ∧
  (∃ evs, log (main E w).1 = log w ++ evs ∧
          loaded evs = [] ∧ transcribed evs = [] ∧
          written evs = [] ∧ moved evs = [] ∧
          (notified evs = [no_files_message] ∨ notified evs = [])) ∧
  audio (main E w).1 = audio w ∧
  out (main E w).1 = out w ∧
  hist (main E w).1 = hist w.
Proof.
  intros Hnone. apply discover_nil in Hnone.
  assert (main E w = notify E "Transcriptor" no_files_message true w) as ->.
  { unfold main, bind at 1. by rewrite Hnone. }
  unfold notify, bind, lift, emit.
  destruct (run_osascript E _) as [p | e]; simpl.
  - split_and!; try done. eexists [_]. by split_and!; [| | | | | left].
  - split_and!; try done; [congruence |].
    exists []. rewrite app_nil_r. by split_and!; [| | | | | right].
Qed.

Lemma no_files_short_circuit_witness :
  main Demo.env Demo.only_notes =
    (record (ENotify "Transcriptor" no_files_message true) Demo.only_notes,
     Ok tt).
Proof.
  assert (Forall (λ f, ¬ supported f) (iterdir Demo.only_notes)) as Hnone.
  { apply (bool_decide_unpack _). vm_compute. exact I. }
  apply (proj1 (no_files_short_circuit Demo.env Demo.only_notes Hnone)
           {| returncode := 0; stdout := ""; stderr := "" |}).
  reflexivity.
Defined.

(** ** A failure of the engine *)

(** C1.  Let the discovered files be [done ++ f_k :: rest] and let the
    run come to the engine call on [f_k], which raises [e] (the model
    loads, the start notification is launched and the engine returns on
    every file of [done]).  Then [main] ends with [e], uncaught.  The
    engine was called on [done] and on [f_k] and on nothing else; the
    texts written are those of [done], in order, and the files moved are
    those of [done].  The output directory is the one of before with
    these texts written to it in that order, and the archive is the one
    of before with, for each move in order, the contents the moved file
    had in the input directory stored under the name it was moved to.
    So each file of [done] is gone from the input directory; its output
    file holds its stripped text unless a later file of [done] has the
    same output name; and it was moved to its own name or to its
    timestamped name, where the archive holds its original contents
    unless another move went to that name.  [f_k] and the files of
    [rest] are in the input directory as before; nothing was written or
    moved for them. *)
Theorem engine_failure_is_fatal (E : Env) (w : World)
    (done rest : list string) (f_k c_k : string) (e : exn)
    (p : CompletedProcess) :
  discover w = done ++ f_k :: rest →
  whisper_load_model E "medium" = Ok tt →
  run_osascript E
    (notify_script "Transcriptor"
       (start_message (length (done ++ f_k :: rest))) true) = Ok p →
  (∀ f, f ∈ done → engine_ok E w f) →
  audio w !! f_k = Some c_k →
  transcribe E f_k c_k = Raise e →
  ∃ w' evs,
    main E w = (w', Raise e) ∧
    log w' = log w ++ evs ∧
    transcribed evs = done ++ [f_k] ∧
    written evs = (λ f, (output_name f, text_of E w f)) <$> done ∧
    (moved evs).*1 = done ∧
    out w' = foldl (λ o nt, <[nt.1 := nt.2]> o) (out w) (written evs) ∧
    hist w' =
      foldl (λ h sd, <[sd.2 := content_of w sd.1]> h) (hist w) (moved evs) ∧
    (∀ f, f ∈ done →
       audio w' !! f = None ∧
       is_Some (out w' !! output_name f) ∧
       ∃ c t dst,
         audio w !! f = Some c ∧ transcribe E f c = Ok t ∧
         ((∀ g, g ∈ done → output_name g = output_name f → g = f) →
          out w' !! output_name f = Some (py_strip E t)) ∧
         (f, dst) ∈ moved evs ∧
         (dst = f ∨ ∃ i, dst = timestamped E i f) ∧
         is_Some (hist w' !! dst) ∧
         ((∀ g d, (g, d) ∈ moved evs → d = dst → g = f) →
          hist w' !! dst = Some c)) ∧
    (∀ f, f ∈ f_k :: rest →
       is_Some (audio w !! f) ∧ audio w' !! f = audio w !! f).
Proof.
  intros Hfiles Hload Hnotify Hok Hc He.
  pose proof (discover_NoDup w) as Hnd. rewrite Hfiles in Hnd.
  set (w0 := record (ENotify "Transcriptor"
                       (start_message (length (done ++ f_k :: rest))) true)
               (record (ELoadModel "medium") w)).
  assert (main E w =
            (record (ETranscribe f_k "es") (after_files E 1 done w0), Raise e))
    as Hmain.
  { rewrite main_with_files by (rewrite Hfiles; by destruct done).
    rewrite Hfiles. unfold bind at 1.
    rewrite list_files_ok.
    2:{ intros f Hf. rewrite <- Hfiles in Hf.
        by apply discover_elem_of in Hf as [_ ?]. }
    unfold bind at 1. rewrite (prepare_ok E _ w p Hload Hnotify).
    unfold bind at 1. fold w0.
    by rewrite (process_all_raises E done rest f_k c_k e 1%nat 0 [] w0). }
  assert (NoDup done) as Hnd_done by (by apply NoDup_app in Hnd as (? & _)).
  destruct (after_files_log E done 1%nat w0 Hnd_done)
    as (evs & Hlog & Htr & Hwr & Hmv & _ & _ & Hhist).
  destruct (after_files_moves E done 1%nat w0 Hnd_done)
    as (evs' & Hlog' & _ & Harchive & Hdst).
  assert (evs' = evs) as ->.
  { apply (app_inv_head (log w0)). by rewrite <- Hlog, <- Hlog'. }
  set (all := [ELoadModel "medium";
               ENotify "Transcriptor"
                 (start_message (length (done ++ f_k :: rest))) true] ++
              evs ++ [ETranscribe f_k "es"]).
  assert (written all = written evs) as Hwritten.
  { unfold all, written. simpl. rewrite omap_app. simpl.
    by rewrite app_nil_r. }
  assert (moved all = moved evs) as Hmoved.
  { unfold all, moved. simpl. rewrite omap_app. simpl.
    by rewrite app_nil_r. }
  assert (out (after_files E 1 done w0) =
            foldl (λ o nt, <[nt.1 := nt.2]> o) (out w) (written evs)) as Hout.
  { rewrite after_files_out by done. rewrite Hwr, foldl_fmap. reflexivity. }
  exists (record (ETranscribe f_k "es") (after_files E 1 done w0)), all.
  rewrite Hwritten, Hmoved.
  split; [exact Hmain |].
  split.
  { unfold all. simpl. rewrite Hlog. simpl. by rewrite <- !(assoc_L (++)). }
  split.
  { unfold all, transcribed in *. simpl. rewrite omap_app. simpl.
    by rewrite Htr. }
  split; [exact Hwr |].
  split; [exact Hmv |].
  split; [exact Hout |].
  split; [exact Harchive |].
  split.
  - intros f Hf. split; [| split].
    + simpl. rewrite after_files_audio. by rewrite decide_True.
    + simpl. rewrite after_files_out by done.
      by apply (foldl_insert_is_Some output_name (text_of E w0)).
    + destruct (Hok f Hf) as (c & t & Hcf & Ht).
      assert (f ∈ (moved evs).*1) as Hin by (by rewrite Hmv).
      apply list_elem_of_fmap in Hin as ([s d] & -> & Hin).
      exists c, t, d. simpl in *.
      split; [exact Hcf |]. split; [exact Ht |].
      split.
      { intros Hlast. rewrite Hout.
        apply (foldl_insert_agree fst snd).
        - exists (output_name s, text_of E w s). split; [| done].
          rewrite Hwr. apply list_elem_of_fmap. by exists s.
        - intros [n x] Hnx Hn. simpl in *. subst n.
          rewrite Hwr in Hnx.
          apply list_elem_of_fmap in Hnx as (g & [= Hg ->] & Hgin).
          rewrite (Hlast g Hgin (eq_sym Hg)).
          unfold text_of, content_of. change (audio w0) with (audio w).
          rewrite Hcf. simpl. by rewrite Ht. }
      split; [exact Hin |].
      split.
      { rewrite Forall_forall in Hdst. exact (Hdst (s, d) Hin). }
      split; [by eapply Hhist |].
      intros Hone. rewrite Harchive.
      apply (foldl_insert_agree snd (λ sd, content_of w sd.1)).
      * exists (s, d). by split.
      * intros [g d'] Hgd Hd'. simpl in *.
        rewrite (Hone g d' Hgd Hd'). unfold content_of.
        change (audio w0) with (audio w). by rewrite Hcf.
  - intros f Hf. split.
    + assert (f ∈ discover w) as Hin
        by (rewrite Hfiles; apply elem_of_app; by right).
      by apply discover_elem_of in Hin as [_ ?].
    + simpl. rewrite after_files_audio. rewrite decide_False; [done |].
      intros Hin. apply NoDup_app in Hnd as (_ & Hdis & _).
      by apply (Hdis f).
Qed.

Lemma engine_failure_is_fatal_witness :
  ∃ w' evs,
    main Demo.env_engine_fails Demo.batch =
      (w', Raise (RuntimeError "corrupt audio")) ∧
    log w' = log Demo.batch ++ evs ∧
    transcribed evs = ["a.MP3"; "a.wav"; "b.mp3"] ∧
    (moved evs).*1 = ["a.MP3"; "a.wav"] ∧
    hist w' =
      foldl (λ h sd, <[sd.2 := content_of Demo.batch sd.1]> h)
        (hist Demo.batch) (moved evs) ∧
    audio w' !! "a.wav" = None ∧
    (∃ dst,
       ("a.wav", dst) ∈ moved evs ∧
       ((∀ g d, (g, d) ∈ moved evs → d = dst → g = "a.wav") →
        hist w' !! dst = Some "AA")) ∧
    audio w' !! "b.mp3" = Some "BBBB".
Proof.
  assert (∀ f, f ∈ ["a.MP3"; "a.wav"] →
               engine_ok Demo.env_engine_fails Demo.batch f) as Hok.
  { intros f Hf. apply elem_of_cons in Hf as [-> | Hf].
    - exists "CCC", " texto de a.MP3". split; reflexivity.
    - apply elem_of_cons in Hf as [-> | Hf].
      + exists "AA", " texto de a.wav". split; reflexivity.
      + by apply elem_of_nil in Hf. }
  destruct (engine_failure_is_fatal Demo.env_engine_fails Demo.batch
              ["a.MP3"; "a.wav"] [] "b.mp3" "BBBB"
              (RuntimeError "corrupt audio")
              {| returncode := 0; stdout := ""; stderr := "" |}
              ltac:(vm_compute; reflexivity) eq_refl eq_refl Hok
              ltac:(vm_compute; reflexivity) eq_refl)
    as (w' & evs & Hrun & Hlog & Htr & _ & Hmv & _ & Harchive & Hdone & Hrest).
  exists w', evs.
  split; [exact Hrun |]. split; [exact Hlog |]. split; [exact Htr |].
  split; [exact Hmv |]. split; [exact Harchive |].
  destruct (Hdone "a.wav") as (Hgone & _ & c & t & dst & Hc & _ & _ & Hin &
                               _ & _ & Hkept);
    [apply list_elem_of_further, list_elem_of_here |].
  split; [exact Hgone |].
  split.
  - exists dst. split; [exact Hin |].
    intros Hone. rewrite (Hkept Hone). f_equal.
    assert (Some c = Some "AA") as [= ->]; [| reflexivity].
    rewrite <- Hc. vm_compute. reflexivity.
  - destruct (Hrest "b.mp3") as [_ ->]; [apply list_elem_of_here |].
    vm_compute. reflexivity.
Defined.

(** ** Two files with one stem *)

(** C10.  Let two distinct discovered files [f1] and [f2] have the same
    stem, [f2] being the later one in the sorted order, and let the run
    process every file (the model loads, the start notification is
    launched, the engine returns on every file).  Both files have the
    same output name, and the text of [f1] is written to it before the
    text of [f2] is; the output directory gains one name per stem; and
    when [f2] is the last file with that stem, the output file holds the
    text of [f2] at the end of the run: the text of [f1] has been
    overwritten and the two inputs leave one output. *)
Theorem same_stem_later_file_wins (E : Env) (w : World) (f1 f2 : string)
    (p : CompletedProcess) :
  f1 ∈ discover w → f2 ∈ discover w →
  f1 ≠ f2 →
  Path.stem f1 = Path.stem f2 →
  String.le f1 f2 →
  whisper_load_model E "medium" = Ok tt →
  run_osascript E
    (notify_script "Transcriptor"
       (start_message (length (discover w))) true) = Ok p →
  (∀ f, f ∈ discover w → engine_ok E w f) →
  ∃ w' r evs,
    main E w = (w', r) ∧
    log w' = log w ++ evs ∧
    Path.stem f1 +:+ ".txt" = Path.stem f2 +:+ ".txt" ∧
    (∃ l1 l2 l3,
        written evs =
          l1 ++ (Path.stem f1 +:+ ".txt", text_of E w f1) ::
          l2 ++ (Path.stem f2 +:+ ".txt", text_of E w f2) :: l3) ∧
    dom (out w') =
      dom (out w) ∪ list_to_set ((λ f, Path.stem f +:+ ".txt") <$> discover w) ∧
    ((∀ g, g ∈ discover w → Path.stem g = Path.stem f2 → String.le g f2) →
     out w' !! (Path.stem f2 +:+ ".txt") = Some (text_of E w f2)).
Proof.
  intros H1 H2 Hne Hstem Hle Hload Hnotify Hok.
  pose proof (discover_NoDup w) as Hnd.
  destruct (discover_order w f1 f2 H1 H2 Hle Hne)
    as (l1 & l2 & l3 & Hfiles & Hafter).
  set (w0 := record (ENotify "Transcriptor"
                       (start_message (length (discover w))) true)
               (record (ELoadModel "medium") w)).
  destruct (process_all_ok E (discover w) 1%nat 0 [] w0 Hnd) as [tr Hloop].
  { intros f Hf. destruct (Hok f Hf) as (c & t & Hc & Ht). by exists c, t. }
  destruct (summarize_frame E tr.1 tr.2 (after_files E 1 (discover w) w0))
    as (evs_s & r & Hsum & Htr_s & Hwr_s & Hmv_s).
  assert (main E w =
            ({| audio := audio (after_files E 1 (discover w) w0);
                out := out (after_files E 1 (discover w) w0);
                hist := hist (after_files E 1 (discover w) w0);
                log := log (after_files E 1 (discover w) w0) ++ evs_s |}, r))
    as Hmain.
  { rewrite main_with_files by (intros Hnil; rewrite Hnil in H1;
                                by apply elem_of_nil in H1).
    unfold bind at 1. rewrite list_files_ok.
    2:{ intros f Hf. by apply discover_elem_of in Hf as [_ ?]. }
    unfold bind at 1. rewrite (prepare_ok E _ w p Hload Hnotify).
    unfold bind at 1. fold w0. by rewrite Hloop. }
  destruct (after_files_log E (discover w) 1%nat w0 Hnd)
    as (evs & Hlog & _ & Hwr & _).
  eexists _, r,
    ([ELoadModel "medium";
      ENotify "Transcriptor" (start_message (length (discover w))) true] ++
     evs ++ evs_s).
  split; [exact Hmain |]. simpl.
  split.
  { rewrite Hlog. simpl. by rewrite <- !(assoc_L (++)). }
  split; [by rewrite Hstem |].
  split.
  { unfold written in *. rewrite omap_app, Hwr, Hwr_s, app_nil_r.
    rewrite Hfiles. rewrite fmap_app, fmap_cons, fmap_app, fmap_cons.
    by eexists _, _, _. }
  split.
  { rewrite after_files_out by done.
    apply (foldl_insert_dom output_name (text_of E w0)). }
  intros Hlast. rewrite after_files_out by done. rewrite Hfiles.
  replace (l1 ++ f1 :: l2 ++ f2 :: l3) with ((l1 ++ f1 :: l2) ++ f2 :: l3)
    by (by rewrite <- (assoc_L (++))).
  change (Path.stem f2 +:+ ".txt") with (output_name f2).
  apply (foldl_insert_last output_name (text_of E w0)).
  intros g Hg Hout. apply output_name_stem in Hout.
  destruct (Hafter g Hg) as [Hge Hneq]. apply Hneq.
  apply (anti_symm String.le); [| done].
  apply Hlast; [| done].
  rewrite Hfiles. apply elem_of_app. right.
  apply list_elem_of_further, elem_of_app. right.
  by apply list_elem_of_further.
Qed.

Lemma same_stem_later_file_wins_witness :
  ∃ w' r evs,
    main Demo.env_echo Demo.batch = (w', r) ∧
    log w' = log Demo.batch ++ evs ∧
    out w' !! "a.txt" = Some "texto de a.wav".
Proof.
  assert (discover Demo.batch = ["a.MP3"; "a.wav"; "b.mp3"]) as Hd
    by (vm_compute; reflexivity).
  assert (∀ f, f ∈ discover Demo.batch →
               engine_ok Demo.env_echo Demo.batch f) as Hok.
  { rewrite Hd. intros f Hf. apply elem_of_cons in Hf as [-> | Hf].
    { exists "CCC", " texto de a.MP3". split; reflexivity. }
    apply elem_of_cons in Hf as [-> | Hf].
    { exists "AA", " texto de a.wav". split; reflexivity. }
    apply elem_of_cons in Hf as [-> | Hf].
    { exists "BBBB", " texto de b.mp3". split; reflexivity. }
    inversion Hf. }
  assert ("a.MP3" ∈ discover Demo.batch) as H1
    by (rewrite Hd; apply list_elem_of_here).
  assert ("a.wav" ∈ discover Demo.batch) as H2
    by (rewrite Hd; apply list_elem_of_further, list_elem_of_here).
  assert (String.le "a.MP3" "a.wav") as Hle by (vm_compute; exact I).
  assert ("a.MP3" ≠ "a.wav") as Hne by (intros [=]).
  destruct (same_stem_later_file_wins Demo.env_echo Demo.batch
              "a.MP3" "a.wav"
              {| returncode := 0; stdout := ""; stderr := "" |}
              H1 H2 Hne eq_refl Hle eq_refl eq_refl Hok)
    as (w' & r & evs & Hrun & Hlog & _ & _ & _ & Hlast).
  exists w', r, evs. split; [exact Hrun |]. split; [exact Hlog |].
  apply Hlast. rewrite Hd. intros g Hg Hstem.
  apply elem_of_cons in Hg as [-> | Hg]; [exact Hle |].
  apply elem_of_cons in Hg as [-> | Hg]; [vm_compute; exact I |].
  apply elem_of_cons in Hg as [-> | Hg]; [vm_compute in Hstem; discriminate |].
  inversion Hg.
Defined.

(** * Further properties *)

(** ** TimeFormatter: negative input and reading back *)

(** X1.  For a negative number of seconds the minutes field is a minus
    sign followed by the unpadded digits of the floored quotient, and the
    seconds field is still two digits between 00 and 59, the remainder of
    the floored division. *)
Theorem format_time_negative (s : Z) :
  s < 0 →
  ∃ ss : string,
    format_time s = "-" +:+ py_str (- (s `div` 60)) +:+ ":" +:+ ss ∧
    String.length ss = 2%nat ∧
    read_digits ss = Some (s `mod` 60) ∧
    0 ≤ s `mod` 60 < 60 ∧
    1 ≤ - (s `div` 60).
Proof.
  intros Hs.
  assert (s `div` 60 < 0) as Hm by (apply Z.div_lt_upper_bound; lia).
  assert (0 ≤ s `mod` 60 < 60) as Hr by (apply Z.mod_pos_bound; lia).
  destruct (fmt_0d_below_sixty _ Hr) as [Hls Hrs].
  exists (fmt_0d 2 (s `mod` 60)).
  split; [| split; [done | split; [done | split; [done | lia]]]].
  assert (fmt_0d 2 (s `div` 60) = "-" +:+ py_str (- (s `div` 60))) as Hmm.
  { unfold fmt_0d.
    destruct (Z.ltb_spec (s `div` 60) 0) as [_ | ?]; [| lia].
    rewrite Z.abs_neq by lia.
    pose proof (py_str_nonempty (- (s `div` 60)) ltac:(lia)) as Hlen.
    replace (2 - String.length "-" - String.length (py_str (- s `div` 60)))%nat
      with 0%nat by (simpl; lia).
    reflexivity. }
  unfold format_time. rewrite Hmm. reflexivity.
Qed.

Lemma format_time_negative_witness :
  ∃ ss : string,
    format_time (-65) = "-" +:+ py_str 2 +:+ ":" +:+ ss ∧
    String.length ss = 2%nat ∧
    read_digits ss = Some 55.
Proof.
  destruct (format_time_negative (-65) ltac:(lia))
    as (ss & Hf & Hl & Hr & _).
  exists ss. split; [exact Hf |]. split; [exact Hl | exact Hr].
Defined.

Lemma split_colon_digits (s t : string) (d : Decimal.uint) :
  NilEmpty.uint_of_string s = Some d →
  split_colon (s +:+ String ":" t) = Some (s, t).
Proof.
  revert d. induction s as [| c s IH]; intros d Hd; [reflexivity |].
  rewrite string_app_cons. simpl in Hd |- *.
  destruct (NilEmpty.uint_of_string s) as [d' |] eqn:Hs; [| done].
  destruct (Ascii.eqb_spec c ":") as [-> | _]; [done |].
  by rewrite (IH d').
Qed.

Lemma split_colon_read (s t : string) (z : Z) :
  read_digits s = Some z → split_colon (s +:+ ":" +:+ t) = Some (s, t).
Proof.
  unfold read_digits, NilZero.uint_of_string. intros Hz.
  destruct s as [| c s]; [done |].
  destruct (NilEmpty.uint_of_string (String c s)) as [d |] eqn:Hd; [| done].
  by apply (split_colon_digits _ _ d).
Qed.

Lemma parse_format_time (s : Z) : 0 ≤ s → parse_time (format_time s) = Some s.
Proof.
  intros Hs.
  assert (0 ≤ s `div` 60) as Hm by (apply Z.div_pos; lia).
  assert (0 ≤ s `mod` 60 < 60) as Hr by (apply Z.mod_pos_bound; lia).
  destruct (fmt_0d_read _ Hm) as [_ Hrm].
  destruct (fmt_0d_below_sixty _ Hr) as [_ Hrs].
  unfold parse_time, format_time.
  rewrite (split_colon_read _ _ _ Hrm), Hrm, Hrs.
  f_equal. pose proof (Z.div_mod s 60). lia.
Qed.

(** X2.  A formatted time can be read back: for non-negative seconds,
    sixty times the minutes field plus the seconds field is the number
    that was formatted, so two different numbers of seconds are never
    shown as the same text. *)
Theorem format_time_round_trip (s1 s2 : Z) :
  0 ≤ s1 → 0 ≤ s2 →
  parse_time (format_time s1) = Some s1 ∧
  (format_time s1 = format_time s2 → s1 = s2).
Proof.
  intros H1 H2. split; [by apply parse_format_time |].
  intros Heq. apply (f_equal parse_time) in Heq.
  rewrite !parse_format_time in Heq by done. by injection Heq.
Qed.

Lemma format_time_round_trip_witness :
  parse_time (format_time 6005) = Some 6005 ∧
  (format_time 6005 = format_time 125 → 6005 = 125).
Proof. apply (format_time_round_trip 6005 125); lia. Defined.

(** ** DurationProbe: when it raises *)

(** X3.  The probe raises exactly when the file does not exist and no
    number could be read from [ffprobe] (it could not be launched or its
    output does not parse); what the caller then sees is always the
    [FileNotFoundError] of the fallback's [stat], never the error of the
    probe itself.  When a number was read, it is returned without the
    file being looked at. *)
Theorem get_audio_duration_raises_iff (E : Env) (file_path : string)
    (w : World) :
  (is_ok (get_audio_duration E file_path w).2 = false ↔
     audio w !! file_path = None ∧ probe_value E file_path = None) ∧
  (∀ e, (get_audio_duration E file_path w).2 = Raise e →
        e = FileNotFoundError file_path) ∧
  (∀ d, probe_value E file_path = Some d →
        get_audio_duration E file_path w = (w, Ok d)).
Proof.
  rewrite get_audio_duration_cases. unfold probe_value, bind, stat_size, ret.
  destruct (run_ffprobe E file_path) as [p | e0];
    [destruct (py_float E (py_strip E (stdout p))) as [x |] |];
    destruct (audio w !! file_path) as [c |]; simpl;
    (split_and!; [split; [done | by intros [? ?]] | intros; congruence
                 | intros; congruence]).
Qed.

Lemma get_audio_duration_raises_iff_witness :
  get_audio_duration Demo.env "zz.wav" Demo.empty_world =
    (Demo.empty_world, Ok (100 # 10)%Q).
Proof.
  apply (proj2 (proj2 (get_audio_duration_raises_iff Demo.env "zz.wav"
                         Demo.empty_world))).
  reflexivity.
Defined.

(** ** ProgressReporter: spinner, monotonicity, width, termination *)

(** X4.  Without a positive estimate every tick writes a spinner line
    with the raw elapsed time: the glyph is the one at position
    [idx mod 10] of the ten glyphs, the index is always in range, and
    the glyph comes back every ten ticks. *)
Theorem tick_spinner (estimated_seconds : Q) (idx : nat) :
  (estimated_seconds <= 0)%Q →
  ∃ glyph,
    spinner !! (idx mod 10)%nat = Some glyph ∧
    tick estimated_seconds idx =
      SpinLine glyph (format_time (Z.of_nat idx)) ∧
    tick estimated_seconds (idx + 10) =
      SpinLine glyph (format_time (Z.of_nat (idx + 10))).
Proof.
  intros Hest.
  assert (idx mod 10 < length spinner)%nat as Hlt
    by (change (length spinner) with 10%nat; apply Nat.mod_upper_bound; lia).
  destruct (lookup_lt_is_Some_2 spinner _ Hlt) as [glyph Hg].
  exists glyph. split; [done |].
  assert ((idx + 10) mod 10 = idx mod 10)%nat as Hper.
  { replace (idx + 10)%nat with (idx + 1 * 10)%nat by lia.
    by rewrite Nat.Div0.mod_add. }
  unfold tick. destruct (Qlt_le_dec 0 estimated_seconds); [lra |].
  change (length spinner) with 10%nat. by rewrite Hper, Hg.
Qed.

Lemma tick_spinner_witness :
  ∃ glyph,
    spinner !! (13 mod 10)%nat = Some glyph ∧
    tick 0 13 = SpinLine glyph (format_time 13).
Proof.
  destruct (tick_spinner 0 13) as (glyph & Hg & Ht & _).
  - vm_compute. discriminate.
  - exists glyph. split; [exact Hg | exact Ht].
Defined.

(** X5.  For a positive estimate the bar never goes backwards: from one
    tick to a later one neither the percentage nor the number of filled
    cells decreases. *)
Theorem progress_never_decreases (estimated_seconds : Q) (i j : nat) :
  (0 < estimated_seconds)%Q → (i ≤ j)%nat →
  percent_of (progress_of estimated_seconds (Z.of_nat i)) ≤
    percent_of (progress_of estimated_seconds (Z.of_nat j)) ∧
  filled_of (progress_of estimated_seconds (Z.of_nat i)) ≤
    filled_of (progress_of estimated_seconds (Z.of_nat j)).
Proof.
  intros Hest Hij.
  pose proof (progress_of_mono estimated_seconds (Z.of_nat i) (Z.of_nat j)
                Hest ltac:(lia) ltac:(lia)) as Hmono.
  destruct (progress_of_bounds estimated_seconds (Z.of_nat i) Hest ltac:(lia))
    as [Hi _].
  split; [by apply percent_of_mono | by apply filled_of_mono].
Qed.

Lemma progress_never_decreases_witness :
  percent_of (progress_of (7 # 2) 1) ≤ percent_of (progress_of (7 # 2) 3) ∧
  filled_of (progress_of (7 # 2) 1) ≤ filled_of (progress_of (7 # 2) 3).
Proof.
  apply (progress_never_decreases (7 # 2) 1 3); [reflexivity | lia].
Defined.

Lemma str_repeat_nat_length (s : string) (n : nat) :
  String.length (str_repeat_nat s n) = (n * String.length s)%nat.
Proof.
  induction n as [| n IH]; simpl; [done |].
  by rewrite string_app_length, IH.
Qed.

(** X6.  The bar has a fixed width: on every tick with a positive
    estimate, and on the completion line, it is thirty cells, each cell
    a three-byte glyph, whatever the elapsed time and the estimate. *)
Theorem bar_has_thirty_cells (estimated_seconds : Q) (idx : nat) :
  (0 < estimated_seconds)%Q →
  String.length (bar_of (tick estimated_seconds idx)) = (30 * 3)%nat ∧
  String.length (str_repeat block bar_width) = (30 * 3)%nat.
Proof.
  intros Hest. split; [| reflexivity].
  pose proof (filled_of_bounds _
                (progress_of_bounds estimated_seconds (Z.of_nat idx) Hest
                   ltac:(lia))) as Hfill.
  set (progress := progress_of estimated_seconds (Z.of_nat idx)) in *.
  unfold tick. destruct (Qlt_le_dec 0 estimated_seconds); [| lra].
  fold progress. simpl. unfold str_repeat.
  rewrite string_app_length, !str_repeat_nat_length. unfold bar_width.
  change (String.length block) with 3%nat.
  change (String.length shade) with 3%nat. lia.
Qed.

Lemma bar_has_thirty_cells_witness :
  String.length (bar_of (tick (7 # 2) 2)) = (30 * 3)%nat.
Proof. apply (bar_has_thirty_cells (7 # 2) 2). reflexivity. Defined.

Lemma progress_loop_never_set (is_set : nat → bool) (estimated_seconds : Q) :
  (∀ i, is_set i = false) →
  ∀ fuel idx, progress_loop fuel is_set estimated_seconds idx = None.
Proof.
  intros Hnever. induction fuel as [| fuel IH]; intros idx; [done |].
  simpl. by rewrite Hnever, IH.
Qed.

(** X7.  The reporter returns only because the stop flag was set: when
    it returns [n], the flag was read unset at the checks [0 .. n-1] and
    set at check [n], and [n] tick lines were written before the
    completion line; a flag that is never set keeps it running for any
    number of iterations. *)
Theorem show_progress_bar_returns_on_stop (fuel : nat) (is_set : nat → bool)
    (file_name : string) (estimated_seconds : Q) :
  (∀ ls n,
     show_progress_bar fuel is_set file_name estimated_seconds = Some (ls, n) →
     is_set n = true ∧
     (∀ i, (i < n)%nat → is_set i = false) ∧
     length ls = S n) ∧
  ((∀ i, is_set i = false) →
   show_progress_bar fuel is_set file_name estimated_seconds = None).
Proof.
  split.
  - intros ls n Hrun. unfold show_progress_bar in Hrun.
    destruct (progress_loop fuel is_set estimated_seconds 0)
      as [[ls0 n0] |] eqn:Hloop; [| done].
    injection Hrun as <- <-.
    destruct (progress_loop_returns _ _ _ _ _ _ Hloop)
      as (_ & -> & Hset & Hbefore).
    split; [done |]. split; [intros i Hi; apply Hbefore; lia |].
    rewrite length_app, length_fmap, length_seq. simpl. lia.
  - intros Hnever. unfold show_progress_bar.
    by rewrite progress_loop_never_set.
Qed.

Lemma show_progress_bar_returns_on_stop_witness :
  show_progress_bar 50 (λ _, false) "a" (7 # 2) = None.
Proof.
  apply (proj2 (show_progress_bar_returns_on_stop 50 (λ _, false) "a" (7 # 2))).
  reflexivity.
Defined.

(** ** Discovery *)

(** X8.  The files processed are exactly the entries of the input
    directory whose extension, lower-cased, is one of the seven
    supported ones; each occurs once and they come in increasing order
    of their names. *)
Theorem discover_spec (w : World) :
  (∀ f, f ∈ discover w ↔
        is_Some (audio w !! f) ∧ lower (Path.suffix f) ∈ AUDIO_EXTENSIONS) ∧
  NoDup (discover w) ∧
  StronglySorted String.le (discover w).
Proof.
  split; [| split; [apply discover_NoDup | apply discover_sorted]].
  intros f. rewrite discover_elem_of. unfold supported. tauto.
Qed.

(** ** What a run may touch *)

Lemma touched_only_refl (fs : list string) (w : World) : touched_only fs w w.
Proof. by split_and!. Qed.

Lemma touched_only_trans (fs1 fs2 : list string) (w w1 w2 : World) :
  touched_only fs1 w w1 → touched_only fs2 w1 w2 →
  touched_only (fs1 ++ fs2) w w2.
Proof.
  intros (Ha1 & Hb1 & Ho1 & Hh1) (Ha2 & Hb2 & Ho2 & Hh2). split_and!.
  - intros g Hg. apply not_elem_of_app in Hg as [? ?].
    by rewrite Ha2, Ha1.
  - intros g c Hg. by apply Hb1, Hb2.
  - intros k Hk. rewrite fmap_app in Hk.
    apply not_elem_of_app in Hk as [? ?]. by rewrite Ho2, Ho1.
  - intros d Hd. by apply Hh2, Hh1.
Qed.

Lemma touched_only_log (fs : list string) (w : World) (l : list event) :
  touched_only fs w
    {| audio := audio w; out := out w; hist := hist w; log := l |}.
Proof. by split_and!. Qed.

Lemma touched_only_after_file (E : Env) (i : nat) (f : string) (w : World) :
  touched_only [f] w (after_file E i f w).
Proof.
  split_and!; simpl.
  - intros g Hg. apply lookup_delete_ne. intros ->. apply Hg, list_elem_of_here.
  - intros g c Hg. apply lookup_delete_Some in Hg as [_ ?]. done.
  - intros k Hk. apply lookup_insert_ne. intros <-. apply Hk, list_elem_of_here.
  - intros d Hd. rewrite lookup_insert. by case_decide.
Qed.

(** The three ways in which the body of the loop can end. *)
Lemma process_file_outcome (E : Env) (i : nat) (f : string) (w : World) :
  (∃ e, process_file E i f w = (w, Raise e)) ∨
  (∃ e, process_file E i f w = (record (ETranscribe f "es") w, Raise e)) ∨
  (∃ c t, audio w !! f = Some c ∧ transcribe E f c = Ok t ∧
          process_file E i f w = (after_file E i f w, Ok (result_of E w i f))).
Proof.
  destruct (audio w !! f) as [c |] eqn:Hc.
  - destruct (transcribe E f c) as [t | e] eqn:Ht.
    + right. right. exists c, t. split_and!; try done.
      by apply (process_file_ok E i f w c t).
    + right. left. exists e. by apply (process_file_raises E i f w c e).
  - pose proof (get_audio_duration_world E f w) as Hw.
    destruct (get_audio_duration E f w) as [w1 [d | e]] eqn:Hg;
      simpl in Hw; subst w1.
    + right. left. exists (FileNotFoundError f).
      unfold process_file, bind at 1. rewrite Hg.
      unfold bind at 1, model_transcribe, bind at 1, emit. simpl.
      by rewrite Hc.
    + left. exists e. unfold process_file, bind at 1. by rewrite Hg.
Qed.

Lemma process_file_touched (E : Env) (i : nat) (f : string) (w : World) :
  touched_only [f] w (process_file E i f w).1.
Proof.
  destruct (process_file_outcome E i f w)
    as [[e ->] | [[e ->] | (c & t & _ & _ & ->)]]; simpl.
  - apply touched_only_refl.
  - apply touched_only_log.
  - apply touched_only_after_file.
Qed.

Lemma process_all_touched (E : Env) (fs : list string) :
  ∀ i total_time results w,
    touched_only fs w (process_all E fs i total_time results w).1.
Proof.
  induction fs as [| f fs IH]; intros i total_time results w; simpl.
  - apply touched_only_refl.
  - pose proof (process_file_touched E i f w) as Hf.
    unfold bind. destruct (process_file E i f w) as [w1 [r | e]]; simpl in Hf.
    + apply (touched_only_trans [f] fs w w1); [done | apply IH].
    + apply (touched_only_trans [f] fs w w1); [done | apply touched_only_refl].
Qed.

Lemma list_files_world (E : Env) (fs : list string) (w : World) :
  (list_files E fs w).1 = w.
Proof.
  induction fs as [| f fs IH]; simpl; [done |].
  unfold bind, stat_size.
  destruct (audio w !! f); [| done].
  pose proof (get_audio_duration_world E f w) as Hw.
  by destruct (get_audio_duration E f w) as [w1 [d | e]]; simpl in Hw; subst w1.
Qed.

Lemma notify_touched (E : Env) (title message : string) (sound : bool)
    (fs : list string) (w : World) :
  touched_only fs w (notify E title message sound w).1.
Proof.
  unfold notify, bind, lift, emit.
  destruct (run_osascript E _); simpl;
    [apply touched_only_log | apply touched_only_refl].
Qed.

Lemma prepare_touched (E : Env) (audio_files fs : list string) (w : World) :
  touched_only fs w (prepare E audio_files w).1.
Proof.
  unfold prepare, bind at 1, emit. simpl. unfold bind at 1, lift.
  destruct (whisper_load_model E "medium"); simpl; [| apply touched_only_log].
  pose proof (notify_touched E "Transcriptor"
                (start_message (length audio_files)) true fs
                (record (ELoadModel "medium") w)) as (Ha & Hb & Ho & Hh).
  by split_and!.
Qed.

Lemma summarize_touched (E : Env) (total_time : Z)
    (results : list file_result) (fs : list string) (w : World) :
  touched_only fs w (summarize E total_time results w).1.
Proof.
  destruct (summarize_frame E total_time results w) as (evs & r & -> & _).
  apply touched_only_log.
Qed.

(** X9.  Whatever the environment does and however the run ends, [main]
    touches only what belongs to the discovered files: every other entry
    of the input directory (a file without a supported extension, for
    one) is left as it was and no input file is created or rewritten; an
    output file is changed only if it bears the output name of a
    discovered file; and no name ever disappears from the archive. *)
Theorem main_touches_only_discovered (E : Env) (w : World) :
  (∀ g, g ∉ discover w → audio (main E w).1 !! g = audio w !! g) ∧
  (∀ g, ¬ supported g → audio (main E w).1 !! g = audio w !! g) ∧
  (∀ g c, audio (main E w).1 !! g = Some c → audio w !! g = Some c) ∧
  (∀ k, k ∉ output_name <$> discover w →
        out (main E w).1 !! k = out w !! k) ∧
  (∀ d, is_Some (hist w !! d) → is_Some (hist (main E w).1 !! d)).
Proof.
  assert (touched_only (discover w) w (main E w).1) as (Ha & Hb & Ho & Hh).
  { unfold main, bind at 1.
    destruct (discover w) as [| f0 fs0] eqn:Hd; [apply notify_touched |].
    rewrite <- Hd. clear Hd.
    unfold bind at 1.
    pose proof (list_files_world E (discover w) w) as Hl.
    destruct (list_files E (discover w) w) as [w1 [[] | e]]; simpl in Hl;
      subst w1; [| apply touched_only_refl].
    unfold bind at 1.
    pose proof (prepare_touched E (discover w) [] w) as Hp.
    destruct (prepare E (discover w) w) as [w2 [[] | e]]; simpl in Hp.
    2:{ apply (touched_only_trans [] (discover w) w w2);
          [done | apply touched_only_refl]. }
    apply (touched_only_trans [] (discover w) w w2); [done |].
    unfold bind.
    pose proof (process_all_touched E (discover w) 1%nat 0 [] w2) as Hloop.
    destruct (process_all E (discover w) 1 0 [] w2) as [w3 [tr | e]];
      simpl in Hloop; [| done].
    rewrite <- (app_nil_r (discover w)).
    apply (touched_only_trans (discover w) [] w2 w3); [done |].
    apply summarize_touched. }
  split_and!; try done.
  intros g Hg. apply Ha. rewrite discover_elem_of. tauto.
Qed.

Lemma main_touches_only_discovered_witness :
  audio (main Demo.env_engine_fails Demo.batch).1 !! "notes.txt" = Some "x".
Proof.
  rewrite (proj1 (proj2 (main_touches_only_discovered Demo.env_engine_fails
                           Demo.batch)) "notes.txt").
  - vm_compute. reflexivity.
  - apply (bool_decide_unpack _). vm_compute. exact I.
Defined.

(** ** A failure before the loop *)

Lemma main_listed (E : Env) (w : World) :
  discover w ≠ [] →
  main E w =
    (_ ←← prepare E (discover w);
     tr ←← process_all E (discover w) 1 0 [];
     summarize E tr.1 tr.2) w.
Proof.
  intros Hne. rewrite main_with_files by done.
  unfold bind at 1. rewrite list_files_ok; [done |].
  intros f Hf. by apply discover_elem_of in Hf as [_ ?].
Qed.

(** X10.  When files were found but the model cannot be loaded, or the
    start notification cannot be launched, [main] ends with that error
    before the loop: the load is the only effect, no notification has
    fired, the engine was never called and the three directories are as
    they were. *)
Theorem preparation_failure_is_fatal (E : Env) (w : World) (e : exn) :
  discover w ≠ [] →
  whisper_load_model E "medium" = Raise e ∨
  (whisper_load_model E "medium" = Ok tt ∧
   run_osascript E
     (notify_script "Transcriptor"
        (start_message (length (discover w))) true) = Raise e) →
  main E w = (record (ELoadModel "medium") w, Raise e).
Proof.
  intros Hne Hfail. rewrite main_listed by done.
  unfold bind at 1, prepare, bind at 1, emit. simpl.
  unfold bind at 1, lift.
  destruct Hfail as [-> | [-> Hn]]; [done |].
  unfold notify, bind, lift. by rewrite Hn.
Qed.

Lemma preparation_failure_is_fatal_witness :
  main Demo.env_no_osascript Demo.batch =
    (record (ELoadModel "medium") Demo.batch,
     Raise (FileNotFoundError "osascript")).
Proof.
  apply preparation_failure_is_fatal.
  - vm_compute. discriminate.
  - right. split; reflexivity.
Defined.

(** ** A run that processes every file *)

Lemma after_file_result_ne (E : Env) (i j : nat) (f g : string) (w : World) :
  g ≠ f → result_of E (after_file E i f w) j g = result_of E w j g.
Proof.
  intros Hne. unfold result_of. by rewrite after_file_text_ne.
Qed.

Lemma results_of_after_file (E : Env) (i : nat) (f : string) (w : World)
    (fs : list string) :
  f ∉ fs →
  ∀ j, results_of E (after_file E i f w) j fs = results_of E w j fs.
Proof.
  induction fs as [| g fs IH]; intros Hf j; simpl; [done |].
  apply not_elem_of_cons in Hf as [Hne Hf].
  rewrite after_file_result_ne by done. by rewrite IH.
Qed.

Lemma process_all_totals (E : Env) (fs : list string) :
  ∀ i total_time results w,
    NoDup fs → (∀ f, f ∈ fs → engine_ok E w f) →
    process_all E fs i total_time results w =
      (after_files E i fs w,
       Ok (total_time + sum_time (results_of E w i fs),
           results ++ results_of E w i fs)).
Proof.
  induction fs as [| f fs IH]; intros i total_time results w Hnd Hok; simpl.
  - unfold ret. by rewrite Z.add_0_r, app_nil_r.
  - apply NoDup_cons in Hnd as [Hf Hnd].
    destruct (Hok f) as (c & t & Hc & Ht); [apply list_elem_of_here |].
    unfold bind. rewrite (process_file_ok E i f w c t Hc Ht).
    rewrite IH; [| done |].
    + rewrite results_of_after_file by done.
      rewrite <- (assoc_L (++)). simpl. do 3 f_equal. lia.
    + intros g Hg. apply after_file_engine_ok; [by intros -> |].
      apply Hok. by apply list_elem_of_further.
Qed.

Lemma file_events_after_file (E : Env) (i : nat) (f : string) (w : World)
    (fs : list string) :
  f ∉ fs →
  ∀ dsts,
    concat (zip_with (file_events E (after_file E i f w)) fs dsts) =
    concat (zip_with (file_events E w) fs dsts).
Proof.
  induction fs as [| g fs IH]; intros Hf [| d dsts]; simpl; try done.
  apply not_elem_of_cons in Hf as [Hne Hf].
  rewrite IH by done. unfold file_events.
  by rewrite after_file_text_ne.
Qed.

(** The trace of the loop, file by file. *)
Lemma after_files_trace (E : Env) (fs : list string) :
  ∀ i w, NoDup fs →
    ∃ dsts,
      length dsts = length fs ∧
      log (after_files E i fs w) =
        log w ++ concat (zip_with (file_events E w) fs dsts).
Proof.
  induction fs as [| f fs IH]; intros i w Hnd; simpl.
  - exists []. by rewrite app_nil_r.
  - apply NoDup_cons in Hnd as [Hf Hnd].
    destruct (IH (S i) (after_file E i f w) Hnd) as (dsts & Hlen & Hlog).
    exists (archive_name E i f w :: dsts). split; [simpl; by rewrite Hlen |].
    rewrite Hlog, file_events_after_file by done.
    simpl. by rewrite <- !(assoc_L (++)).
Qed.

Lemma results_of_started (E : Env) (w : World) (fs : list string) :
  ∀ i, results_of E (started w) i fs = results_of E w i fs.
Proof. induction fs as [| f fs IH]; intros i; simpl; [done | by rewrite IH]. Qed.

Lemma main_processed (E : Env) (w : World) (p : CompletedProcess) :
  discover w ≠ [] →
  whisper_load_model E "medium" = Ok tt →
  run_osascript E
    (notify_script "Transcriptor"
       (start_message (length (discover w))) true) = Ok p →
  (∀ f, f ∈ discover w → engine_ok E w f) →
  main E w =
    summarize E (sum_time (results_of E w 1 (discover w)))
      (results_of E w 1 (discover w))
      (after_files E 1 (discover w) (started w)).
Proof.
  intros Hne Hload Hnotify Hok. rewrite main_listed by done.
  unfold bind at 1. rewrite (prepare_ok E _ w p Hload Hnotify).
  unfold bind at 1. fold (started w).
  rewrite (process_all_totals E (discover w) 1%nat 0 [] (started w)).
  - simpl. by rewrite results_of_started.
  - apply discover_NoDup.
  - intros f Hf. destruct (Hok f Hf) as (c & t & Hc & Ht). by exists c, t.
Qed.

Lemma results_of_shape (E : Env) (w : World) (fs : list string) :
  ∀ i,
    length (results_of E w i fs) = length fs ∧
    res_words <$> results_of E w i fs =
      (λ f, length (py_split E (text_of E w f))) <$> fs.
Proof.
  induction fs as [| f fs IH]; intros i; [done |].
  destruct (IH (S i)) as [Hl Hw]. split.
  - simpl. by rewrite Hl.
  - cbn [results_of]. rewrite !fmap_cons, Hw. done.
Qed.

(** X11.  When every step succeeds, [main] returns normally and its
    effects are, in this order: one model load, the start notification
    with the number of files, then for each discovered file in sorted
    order the engine call, the write of its text and the move of the
    original, then the summary notification and the opening of the
    output directory.  The summary counts one result per file, the words
    of all the texts written and the sum of the per-file durations. *)
Theorem successful_run_trace (E : Env) (w : World) (p1 p2 p3 : CompletedProcess) :
  discover w ≠ [] →
  whisper_load_model E "medium" = Ok tt →
  run_osascript E
    (notify_script "Transcriptor"
       (start_message (length (discover w))) true) = Ok p1 →
  (∀ f, f ∈ discover w → engine_ok E w f) →
  run_osascript E
    (notify_script "✅ Transcripción Completa"
       (summary_message (results_of E w 1 (discover w))
          (sum_time (results_of E w 1 (discover w)))) true) = Ok p2 →
  run_open E OUTPUT_DIR = Ok p3 →
  ∃ w' dsts,
    main E w = (w', Ok tt) ∧
    length dsts = length (discover w) ∧
    log w' =
      log w ++
      [ELoadModel "medium";
       ENotify "Transcriptor" (start_message (length (discover w))) true] ++
      concat (zip_with (file_events E w) (discover w) dsts) ++
      [ENotify "✅ Transcripción Completa"
         (summary_message (results_of E w 1 (discover w))
            (sum_time (results_of E w 1 (discover w)))) true;
       EOpen OUTPUT_DIR] ∧
    length (results_of E w 1 (discover w)) = length (discover w) ∧
    res_words <$> results_of E w 1 (discover w) =
      (λ f, length (py_split E (text_of E w f))) <$> discover w.
Proof.
  intros Hne Hload Hstart Hok Hsum Hopen.
  rewrite (main_processed E w p1 Hne Hload Hstart Hok).
  destruct (after_files_trace E (discover w) 1%nat (started w)
              (discover_NoDup w)) as (dsts & Hlen & Hlog).
  unfold summarize, bind, notify, bind, lift, emit. rewrite Hsum, Hopen.
  eexists _, dsts. split; [reflexivity |]. split; [done |]. simpl.
  split.
  { rewrite Hlog. cbn [log started record].
    rewrite <- ?(assoc_L (++)). reflexivity. }
  apply results_of_shape.
Qed.

Lemma successful_run_trace_witness :
  ∃ w',
    main Demo.env Demo.one_file = (w', Ok tt) ∧
    notified (log w') =
      ["Iniciando transcripción de 1 archivo(s)";
       "1 archivo(s) • 2 palabras • 00:04"] ∧
    out w' !! "a.txt" = Some "hola mundo".
Proof.
  destruct (successful_run_trace Demo.env Demo.one_file
              {| returncode := 0; stdout := ""; stderr := "" |}
              {| returncode := 0; stdout := ""; stderr := "" |}
              {| returncode := 0; stdout := ""; stderr := "" |})
    as (w' & dsts & Hrun & _).
  - vm_compute. discriminate.
  - reflexivity.
  - reflexivity.
  - intros f Hf. exists "AA", " hola mundo ".
    assert (discover Demo.one_file = ["a.wav"]) as Hd
      by (vm_compute; reflexivity).
    rewrite Hd in Hf. apply elem_of_cons in Hf as [-> | Hf]; [| inversion Hf].
    split; reflexivity.
  - reflexivity.
  - reflexivity.
  - exists w'. split; [exact Hrun |].
    assert (w' = (main Demo.env Demo.one_file).1) as -> by (by rewrite Hrun).
    split; vm_compute; reflexivity.
Defined.

(** ** What is left in the input directory *)

(** Once the files [done] are gone from the input directory, discovery
    finds the others, in the same order. *)
Lemma discover_after_processing (w w' : World) (done rest : list string) :
  discover w = done ++ rest →
  (∀ g, audio w' !! g = if decide (g ∈ done) then None else audio w !! g) →
  discover w' = rest.
Proof.
  intros Hfiles Haudio.
  pose proof (discover_NoDup w) as Hnd. pose proof (discover_sorted w) as Hs.
  rewrite Hfiles in Hnd, Hs.
  apply (StronglySorted_unique String.le).
  - apply discover_sorted.
  - by apply StronglySorted_app_1_r in Hs.
  - apply NoDup_Permutation.
    + apply discover_NoDup.
    + by apply NoDup_app in Hnd as (_ & _ & ?).
    + intros g. rewrite discover_elem_of, Haudio.
      apply NoDup_app in Hnd as (_ & Hdis & _).
      destruct (decide (g ∈ done)) as [Hin | Hnin].
      * split; [by intros [_ [? ?]] | intros Hr; by destruct (Hdis g)].
      * rewrite <- discover_elem_of, Hfiles, elem_of_app. tauto.
Qed.

Lemma summarize_audio (E : Env) (total_time : Z) (results : list file_result)
    (w : World) :
  audio (summarize E total_time results w).1 = audio w.
Proof. by destruct (summarize_frame E total_time results w) as (? & ? & -> & _). Qed.

(** X12.  After a run in which the engine returned on every file, the
    input directory holds none of the discovered files and discovery
    finds nothing there, whatever became of the summary notification
    and of the file browser; running [main] again, in any environment,
    is the no-files short circuit. *)
Theorem processed_batch_is_not_processed_again (E E' : Env) (w : World)
    (p : CompletedProcess) :
  discover w ≠ [] →
  whisper_load_model E "medium" = Ok tt →
  run_osascript E
    (notify_script "Transcriptor"
       (start_message (length (discover w))) true) = Ok p →
  (∀ f, f ∈ discover w → engine_ok E w f) →
  (∀ f, f ∈ discover w → audio (main E w).1 !! f = None) ∧
  discover (main E w).1 = [] ∧
  main E' (main E w).1 =
    notify E' "Transcriptor" no_files_message true (main E w).1.
Proof.
  intros Hne Hload Hstart Hok.
  rewrite (main_processed E w p Hne Hload Hstart Hok).
  assert (∀ g, audio (summarize E
                        (sum_time (results_of E w 1 (discover w)))
                        (results_of E w 1 (discover w))
                        (after_files E 1 (discover w) (started w))).1 !! g =
               if decide (g ∈ discover w) then None else audio w !! g)
    as Haudio.
  { intros g. by rewrite summarize_audio, after_files_audio. }
  assert (discover (summarize E
                      (sum_time (results_of E w 1 (discover w)))
                      (results_of E w 1 (discover w))
                      (after_files E 1 (discover w) (started w))).1 = [])
    as Hnil.
  { apply (discover_after_processing w _ (discover w) []);
      [by rewrite app_nil_r | done]. }
  split_and!.
  - intros f Hf. rewrite Haudio. by rewrite decide_True.
  - done.
  - unfold main at 1, bind at 1. by rewrite Hnil.
Qed.

Lemma processed_batch_is_not_processed_again_witness :
  discover (main Demo.env_echo Demo.batch).1 = [].
Proof.
  assert (discover Demo.batch = ["a.MP3"; "a.wav"; "b.mp3"]) as Hd
    by (vm_compute; reflexivity).
  apply (processed_batch_is_not_processed_again Demo.env_echo Demo.env
           Demo.batch {| returncode := 0; stdout := ""; stderr := "" |}).
  - rewrite Hd. discriminate.
  - reflexivity.
  - reflexivity.
  - rewrite Hd. intros f Hf. apply elem_of_cons in Hf as [-> | Hf].
    { exists "CCC", " texto de a.MP3". split; reflexivity. }
    apply elem_of_cons in Hf as [-> | Hf].
    { exists "AA", " texto de a.wav". split; reflexivity. }
    apply elem_of_cons in Hf as [-> | Hf].
    { exists "BBBB", " texto de b.mp3". split; reflexivity. }
    inversion Hf.
Defined.

Lemma main_engine_raises (E : Env) (w : World) (done rest : list string)
    (f_k c_k : string) (e : exn) (p : CompletedProcess) :
  discover w = done ++ f_k :: rest →
  whisper_load_model E "medium" = Ok tt →
  run_osascript E
    (notify_script "Transcriptor"
       (start_message (length (discover w))) true) = Ok p →
  (∀ f, f ∈ done → engine_ok E w f) →
  audio w !! f_k = Some c_k →
  transcribe E f_k c_k = Raise e →
  main E w =
    (record (ETranscribe f_k "es") (after_files E 1 done (started w)), Raise e).
Proof.
  intros Hfiles Hload Hnotify Hok Hc He.
  pose proof (discover_NoDup w) as Hnd.
  rewrite main_listed by (rewrite Hfiles; by destruct done).
  unfold bind at 1. rewrite (prepare_ok E _ w p Hload Hnotify).
  unfold bind at 1. fold (started w). rewrite Hfiles in Hnd |- * at 1.
  by rewrite (process_all_raises E done rest f_k c_k e 1%nat 0 []
                (started w)).
Qed.

(** X13.  A run that the engine aborts on file [f_k] can be resumed:
    what discovery finds in the directories it leaves behind is [f_k]
    followed by the files that came after it, in the same order, so a
    second run takes up the batch where the first one stopped and does
    not see the files already archived. *)
Theorem aborted_run_is_resumable (E : Env) (w : World)
    (done rest : list string) (f_k c_k : string) (e : exn)
    (p : CompletedProcess) :
  discover w = done ++ f_k :: rest →
  whisper_load_model E "medium" = Ok tt →
  run_osascript E
    (notify_script "Transcriptor"
       (start_message (length (discover w))) true) = Ok p →
  (∀ f, f ∈ done → engine_ok E w f) →
  audio w !! f_k = Some c_k →
  transcribe E f_k c_k = Raise e →
  (main E w).2 = Raise e ∧
  discover (main E w).1 = f_k :: rest ∧
  (∀ f, f ∈ f_k :: rest → audio (main E w).1 !! f = audio w !! f).
Proof.
  intros Hfiles Hload Hnotify Hok Hc He.
  rewrite (main_engine_raises E w done rest f_k c_k e p) by done. simpl.
  split; [done |].
  assert (∀ g, audio (after_files E 1 done (started w)) !! g =
               if decide (g ∈ done) then None else audio w !! g) as Haudio
    by (intros g; by rewrite after_files_audio).
  split.
  - by apply (discover_after_processing w _ done (f_k :: rest)).
  - intros f Hf. rewrite Haudio. rewrite decide_False; [done |].
    pose proof (discover_NoDup w) as Hnd. rewrite Hfiles in Hnd.
    apply NoDup_app in Hnd as (_ & Hdis & _). intros Hin. by apply (Hdis f).
Qed.

Lemma aborted_run_is_resumable_witness :
  discover (main Demo.env_engine_fails Demo.batch).1 = ["b.mp3"].
Proof.
  assert (discover Demo.batch = ["a.MP3"; "a.wav"] ++ "b.mp3" :: []) as Hd
    by (vm_compute; reflexivity).
  apply (aborted_run_is_resumable Demo.env_engine_fails Demo.batch
           ["a.MP3"; "a.wav"] [] "b.mp3" "BBBB" (RuntimeError "corrupt audio")
           {| returncode := 0; stdout := ""; stderr := "" |} Hd).
  - reflexivity.
  - reflexivity.
  - intros f Hf. apply elem_of_cons in Hf as [-> | Hf].
    { exists "CCC", " texto de a.MP3". split; reflexivity. }
    apply elem_of_cons in Hf as [-> | Hf].
    { exists "AA", " texto de a.wav". split; reflexivity. }
    inversion Hf.
  - vm_compute. reflexivity.
  - reflexivity.
Defined.

(** ** The archive without name clashes *)

Lemma after_files_hist_fresh (E : Env) (fs : list string) :
  ∀ i w, NoDup fs → (∀ f, f ∈ fs → hist w !! f = None) →
    hist (after_files E i fs w) =
      foldl (λ h f, <[id f := content_of w f]> h) (hist w) fs.
Proof.
  induction fs as [| f fs IH]; intros i w Hnd Hfresh; simpl; [done |].
  apply NoDup_cons in Hnd as [Hf Hnd].
  assert (archive_name E i f w = f) as Hname.
  { unfold archive_name. rewrite (Hfresh f) by apply list_elem_of_here.
    rewrite bool_decide_eq_false_2; [done |]. by intros [? ?]. }
  rewrite IH; [| done |].
  - simpl. rewrite Hname.
    generalize (<[f := content_of w f]> (hist w)). clear IH Hfresh Hname.
    induction fs as [| g fs IHfs]; intros h; simpl; [done |].
    apply not_elem_of_cons in Hf as [Hne Hf].
    apply NoDup_cons in Hnd as [_ Hnd].
    rewrite after_file_content_ne by done. by apply IHfs.
  - intros g Hg. simpl. rewrite Hname, lookup_insert_ne.
    + apply Hfresh. by apply list_elem_of_further.
    + by intros ->.
Qed.

(** X14.  When none of the discovered names is in the archive already
    and the engine returns on every file, the archive ends up holding
    every processed file under its own name with the contents it had in
    the input directory, everything archived before is still there
    unchanged, and the archive has gained exactly the discovered
    names. *)
Theorem archive_holds_every_processed_file (E : Env) (w : World)
    (p : CompletedProcess) :
  discover w ≠ [] →
  whisper_load_model E "medium" = Ok tt →
  run_osascript E
    (notify_script "Transcriptor"
       (start_message (length (discover w))) true) = Ok p →
  (∀ f, f ∈ discover w → engine_ok E w f) →
  (∀ f, f ∈ discover w → hist w !! f = None) →
  (∀ f c, f ∈ discover w → audio w !! f = Some c →
          hist (main E w).1 !! f = Some c) ∧
  (∀ d old, hist w !! d = Some old → hist (main E w).1 !! d = Some old) ∧
  dom (hist (main E w).1) = dom (hist w) ∪ list_to_set (discover w).
Proof.
  intros Hne Hload Hstart Hok Hfresh.
  rewrite (main_processed E w p Hne Hload Hstart Hok).
  destruct (summarize_frame E (sum_time (results_of E w 1 (discover w)))
              (results_of E w 1 (discover w))
              (after_files E 1 (discover w) (started w)))
    as (evs & r & -> & _).
  cbn [fst hist].
  rewrite (after_files_hist_fresh E (discover w) 1%nat (started w)
             (discover_NoDup w)) by done.
  cbn [hist started record].
  split_and!.
  - intros f c Hf Hc.
    destruct (list_elem_of_split _ _ Hf) as (pre & post & Hsplit).
    pose proof (discover_NoDup w) as Hnd. rewrite Hsplit in Hnd |- *.
    rewrite (foldl_insert_last id (content_of (started w)) pre post f).
    + unfold content_of. cbn [audio started record]. by rewrite Hc.
    + intros g Hg Heq. unfold id in Heq. subst g.
      apply NoDup_app in Hnd as (_ & _ & Hnd).
      by apply NoDup_cons in Hnd as [? _].
  - intros d old Hd.
    rewrite (foldl_insert_notin id (content_of (started w))); [done |].
    intros g Hg Heq. unfold id in Heq. subst g.
    rewrite (Hfresh d Hg) in Hd. done.
  - rewrite (foldl_insert_dom id (content_of (started w))).
    by rewrite list_fmap_id.
Qed.

Lemma archive_holds_every_processed_file_witness :
  hist (main Demo.env_echo Demo.batch).1 !! "a.wav" = Some "AA".
Proof.
  assert (discover Demo.batch = ["a.MP3"; "a.wav"; "b.mp3"]) as Hd
    by (vm_compute; reflexivity).
  assert (∀ f, f ∈ discover Demo.batch →
               engine_ok Demo.env_echo Demo.batch f) as Hok.
  { rewrite Hd. intros f Hf. apply elem_of_cons in Hf as [-> | Hf].
    { exists "CCC", " texto de a.MP3". split; reflexivity. }
    apply elem_of_cons in Hf as [-> | Hf].
    { exists "AA", " texto de a.wav". split; reflexivity. }
    apply elem_of_cons in Hf as [-> | Hf].
    { exists "BBBB", " texto de b.mp3". split; reflexivity. }
    inversion Hf. }
  assert (discover Demo.batch ≠ []) as Hne by (rewrite Hd; discriminate).
  destruct (archive_holds_every_processed_file Demo.env_echo Demo.batch
              {| returncode := 0; stdout := ""; stderr := "" |}
              Hne eq_refl eq_refl Hok (λ f _, eq_refl)) as (Hall & _).
  apply Hall.
  - rewrite Hd. apply list_elem_of_further, list_elem_of_here.
  - vm_compute. reflexivity.
Defined.

(** ** The file browser *)

(** X15.  A failure to launch [open] at the very end is not caught
    either: [main] ends with that error, but only after every file has
    been transcribed, written and archived and after the summary
    notification has fired; the trace is that of a successful run
    without its last effect, and discovery finds nothing left. *)
Theorem open_failure_comes_after_all_work (E : Env) (w : World) (e : exn)
    (p1 p2 : CompletedProcess) :
  discover w ≠ [] →
  whisper_load_model E "medium" = Ok tt →
  run_osascript E
    (notify_script "Transcriptor"
       (start_message (length (discover w))) true) = Ok p1 →
  (∀ f, f ∈ discover w → engine_ok E w f) →
  run_osascript E
    (notify_script "✅ Transcripción Completa"
       (summary_message (results_of E w 1 (discover w))
          (sum_time (results_of E w 1 (discover w)))) true) = Ok p2 →
  run_open E OUTPUT_DIR = Raise e →
  ∃ w' dsts,
    main E w = (w', Raise e) ∧
    length dsts = length (discover w) ∧
    log w' =
      log w ++
      [ELoadModel "medium";
       ENotify "Transcriptor" (start_message (length (discover w))) true] ++
      concat (zip_with (file_events E w) (discover w) dsts) ++
      [ENotify "✅ Transcripción Completa"
         (summary_message (results_of E w 1 (discover w))
            (sum_time (results_of E w 1 (discover w)))) true] ∧
    discover w' = [].
Proof.
  intros Hne Hload Hstart Hok Hsum Hopen.
  rewrite (main_processed E w p1 Hne Hload Hstart Hok).
  destruct (after_files_trace E (discover w) 1%nat (started w)
              (discover_NoDup w)) as (dsts & Hlen & Hlog).
  unfold summarize, bind, notify, bind, lift, emit. rewrite Hsum, Hopen.
  eexists _, dsts. split; [reflexivity |]. split; [done |].
  split.
  { cbn [log record]. rewrite Hlog. cbn [log started record].
    rewrite <- ?(assoc_L (++)). reflexivity. }
  apply (discover_after_processing w _ (discover w) []);
    [by rewrite app_nil_r |].
  intros g. cbn [audio record]. by rewrite after_files_audio.
Qed.

Lemma open_failure_comes_after_all_work_witness :
  ∃ w' (dsts : list string),
    main Demo.env_no_open Demo.one_file =
      (w', Raise (FileNotFoundError "open")) ∧
    length dsts = 1%nat ∧
    discover w' = [].
Proof.
  assert (discover Demo.one_file = ["a.wav"]) as Hd
    by (vm_compute; reflexivity).
  edestruct (open_failure_comes_after_all_work Demo.env_no_open
               Demo.one_file (FileNotFoundError "open")
               {| returncode := 0; stdout := ""; stderr := "" |}
               {| returncode := 0; stdout := ""; stderr := "" |})
    as (w' & dsts & Hrun & Hlen & _ & Hnil).
  - rewrite Hd. discriminate.
  - reflexivity.
  - reflexivity.
  - rewrite Hd. intros f Hf.
    apply elem_of_cons in Hf as [-> | Hf]; [| inversion Hf].
    exists "AA", " hola mundo ". split; reflexivity.
  - reflexivity.
  - reflexivity.
  - exists w', dsts. split; [exact Hrun |]. split; [| exact Hnil].
    rewrite Hlen, Hd. reflexivity.
Defined.
